(** * appstats request handlers (handler.go): Details and File

    A shallow embedding of the two handlers of [handler.go] that carry
    logic -- [Details], which aggregates the RPC statistics of one recorded
    request, and [File], which serves a source file as a line-indexed map --
    together with the properties the specification states about them.

    Go values are modelled as follows.
    - [int], [time.Duration] (an [int64]): [Z] with the two's complement
      wrap-around of Go's arithmetic written out ([wrap]).
    - [string]: [string] (a sequence of bytes, as in Go).
    - [map[K]V]: stdpp's [gmap K V]; reading a missing key yields the zero
      value of [V]; the order in which [range] visits a map is unspecified
      in Go and is a parameter ([map_range]).
    - [error] results: a sum type, [inl] for the value and [inr] for the
      error.
    - the response written to [http.ResponseWriter]: the type [Response]. *)

From Stdlib Require Import ZArith Ascii String List Lia Permutation Sorted.
From stdpp Require Import base gmap strings list fin_maps sorting.

Open Scope Z_scope.

(** ** Go integers *)

(** Two's complement wrap-around of a [bits]-bit signed integer. *)
Definition wrap (bits : Z) (x : Z) : Z :=
  (x + 2 ^ (bits - 1)) mod 2 ^ bits - 2 ^ (bits - 1).

(** [strconv.IntSize]: the size of [int] on a 64-bit platform. *)
Definition IntSize : Z := 64.
Definition MaxInt : Z := 2 ^ (IntSize - 1) - 1.
Definition MinInt : Z := - 2 ^ (IntSize - 1).

Definition int_wrap : Z → Z := wrap IntSize.
(** [time.Duration] is an [int64] count of nanoseconds. *)
Definition wrap64 : Z → Z := wrap 64.

(** Sum of a list of integers, in [Z]. *)
Definition sumZ (l : list Z) : Z := foldr Z.add 0 l.

(** ** The numeric type of costs

    The type of [RPCStat.Cost] (and of [cVal.cost], [StatByName.Cost]) is
    declared outside [handler.go]; the handler only uses its zero value and
    its [+=].  It is a parameter with these two operations. *)
Class Numeric (C : Type) := {
  num_zero : C;
  num_add : C → C → C }.

(** Addition of costs is that of a commutative monoid (Go's integer types
    satisfy this, wrap-around included). *)
Class NumericLaws (C : Type) `{Numeric C} : Prop := {
  num_add_assoc : ∀ a b c : C, num_add a (num_add b c) = num_add (num_add a b) c;
  num_add_comm : ∀ a b : C, num_add a b = num_add b a;
  num_add_zero_l : ∀ a : C, num_add num_zero a = a }.

Definition num_sum `{Numeric C} (l : list C) : C := foldr num_add num_zero l.

(** The sum of [f k v] over the entries [(k, v)] of a map. *)
Definition map_sum `{Numeric M} `{Countable K} {V : Type}
    (f : K → V → M) (m : gmap K V) : M :=
  num_sum ((λ kv, f kv.1 kv.2) <$> map_to_list m).

(** Unbounded integers as a cost type. *)
#[export] Instance Z_Numeric : Numeric Z := {| num_zero := 0; num_add := Z.add |}.

(** ** Requests, responses and the host *)

(** [error]: only the message ([err.Error()]) matters here. *)
Inductive error := errors_New (msg : string).
Definition Error (e : error) : string := let 'errors_New m := e in m.

(** [url.Values], the type of [r.Form] and of [r.URL.Query()]. *)
Definition url_Values := gmap string (list string).

(** [url.Values.Get]: the first value of the key, or the empty string. *)
Definition Values_Get (vs : url_Values) (key : string) : string :=
  match vs !! key with
  | Some (v :: _) => v
  | _ => ""%string
  end.

Record Request := {
  URL_Path : string;
  URL_Query : url_Values;
  Form : url_Values }.

Definition FormValue (r : Request) (key : string) : string := Values_Get (Form r) key.

(** [memcache.Item] *)
Record Item := { Value : list Byte.byte }.

(** What the handlers consume from outside the package: the application
    identifier, the key pattern [keyFull] (a constant declared outside
    [handler.go], applied to the request identifier by [fmt.Sprintf]),
    memcache and the file system. *)
Record Host := {
  appengine_AppID : string;
  keyFull : string → string;
  memcache_Get : string → Item + error;
  ioutil_ReadFile : string → string + error }.

Definition StatusInternalServerError : Z := 500.

(** What a handler does with its [http.ResponseWriter]: it executes the
    named template on a view of type [V], or replies with [http.Error], or
    panics on a nil pointer. *)
Inductive Response (V : Type) :=
| ExecuteTemplate (name : string) (v : V)
| http_Error (msg : string) (code : Z)
| panic_nil_dereference.
Arguments ExecuteTemplate {V} name v.
Arguments http_Error {V} msg code.
Arguments panic_nil_dereference {V}.

Definition serveError {V} (err : error) : Response V :=
  http_Error (Error err) StatusInternalServerError.

Section Details.
Context {C : Type} `{Numeric C}.

(** Modelled from the spec: [RPCStat] and its method [Name] are declared
    outside [handler.go]; a call event has a name (the result of
    [Name()]), a cost and a duration. *)
Record RPCStat := {
  RPCStat_Name : string;
  RPCStat_Cost : C;
  RPCStat_Duration : Z }.

(** Modelled from the spec: [RequestStats] is declared outside
    [handler.go]; the handler reads its [RPCStats]. *)
Record RequestStats := { RPCStats : list RPCStat }.

Definition http_Header := gmap string (list string).

(** [stats_full]; [Stats] is a pointer ([*RequestStats]), [None] is [nil]. *)
Record stats_full := {
  Header : http_Header;
  Stats : option RequestStats }.

(** Modelled from the spec: [cVal] is declared outside [handler.go]; the
    handler uses its fields [count] (an [int]) and [cost]. *)
Record cVal := { count : Z; cost : C }.
Definition cVal_zero : cVal := {| count := 0; cost := num_zero |}.

(** [StatByName], with the fields that [Details] sets. *)
Record StatByName := {
  Name : string;
  Count : Z;
  Cost : C;
  Duration : Z }.
(** [StatsByName] is [[]*StatByName]. *)
Local Abbreviation StatsByName := (list StatByName) (only parsing).

(** The view handed to the ["details"] template. *)
Record DetailsView := {
  Env : gmap string string;
  Record_ : option RequestStats;
  Header_ : http_Header;
  AllStatsByCount : StatsByName;
  Real : Z }.

(** What [Details] takes from the language and its libraries:
    [gob]'s decoder, the order in which [range] visits a map, the method
    [StatsByName.Less] (declared outside [handler.go]) and [sort.Sort]. *)
Record Lang := {
  gob_Decode : list Byte.byte → stats_full + error;
  map_range : gmap string cVal → list (string * cVal);
  StatsByName_Less : StatByName → StatByName → bool;
  sort_Sort : (StatByName → StatByName → bool) → StatsByName → StatsByName }.

(** The state of the first loop of [Details]. *)
Record Acc := {
  byCount : gmap string cVal;
  durationCount : gmap string Z;
  _real : Z }.

Definition Acc_init : Acc := {| byCount := ∅; durationCount := ∅; _real := 0 |}.

(** One iteration of [for _, r := range full.Stats.RPCStats]. *)
Definition aggregate_step (a : Acc) (r : RPCStat) : Acc :=
  let rpc := RPCStat_Name r in
  let dc := match byCount a !! rpc with
            | Some _ => durationCount a
            | None => <[rpc := 0]> (durationCount a)
            end in
  let v := default cVal_zero (byCount a !! rpc) in
  let v := {| count := int_wrap (count v + 1);
              cost := num_add (cost v) (RPCStat_Cost r) |} in
  {| byCount := <[rpc := v]> (byCount a);
     durationCount := <[rpc := wrap64 (default 0 (dc !! rpc) + RPCStat_Duration r)]> dc;
     _real := wrap64 (_real a + RPCStat_Duration r) |}.

Definition aggregate (rs : list RPCStat) : Acc := foldl aggregate_step Acc_init rs.

(** The body of [for k, v := range byCount]. *)
Definition row_of (dc : gmap string Z) (kv : string * cVal) : StatByName :=
  {| Name := kv.1;
     Count := count kv.2;
     Cost := cost kv.2;
     Duration := default 0 (dc !! kv.1) |}.

(** The second loop of [Details] and the sort that follows it. *)
Definition rows (g : Lang) (a : Acc) : StatsByName :=
  let allStatsByCount := row_of (durationCount a) <$> map_range g (byCount a) in
  sort_Sort g (StatsByName_Less g) allStatsByCount.

Definition Details (h : Host) (g : Lang) (r : Request) : Response DetailsView :=
  let key := keyFull h (FormValue r "rid") in
  let v := {| Env := {[ "APPLICATION_ID"%string := appengine_AppID h ]};
              Record_ := None;
              Header_ := ∅;
              AllStatsByCount := [];
              Real := 0 |} in
  match memcache_Get h key with
  | inr _ => ExecuteTemplate "details" v
  | inl item =>
    match gob_Decode g (Value item) with
    | inr _ => ExecuteTemplate "details" v
    | inl full =>
      match Stats full with
      | None => panic_nil_dereference
      | Some stats =>
        let a := aggregate (RPCStats stats) in
        let allStatsByCount := rows g a in
        ExecuteTemplate "details"
          {| Env := Env v;
             Record_ := Some stats;
             Header_ := Header full;
             AllStatsByCount := allStatsByCount;
             Real := _real a |}
      end
    end
  end.

End Details.

Arguments RPCStat C : clear implicits.
Arguments RequestStats C : clear implicits.
Arguments stats_full C : clear implicits.
Arguments cVal C : clear implicits.
Arguments StatByName C : clear implicits.
Arguments DetailsView C : clear implicits.
Arguments Lang C : clear implicits.
Arguments Acc C : clear implicits.
Abbreviation StatsByName C := (list (StatByName C)) (only parsing).

(** ** What is assumed of the language: [range] over a map and [sort.Sort] *)

(** [less] is a strict weak ordering, which is what [sort.Sort] expects of
    a [Less] method. *)
Record StrictWeakOrder {A : Type} (less : A → A → bool) : Prop := {
  swo_irrefl : ∀ a, less a a = false;
  swo_trans : ∀ a b c, less a b = true → less b c = true → less a c = true;
  swo_incomparable : ∀ a b c, less a b = false → less b c = false → less a c = false }.

(** [b] is not less than [a]. *)
Definition not_after {A : Type} (less : A → A → bool) : relation A :=
  λ a b, less b a = false.

#[export] Instance not_after_dec {A : Type} (less : A → A → bool) :
  RelDecision (not_after less).
Proof. intros a b. unfold not_after. apply _. Defined.

(** [l] is in ascending order as determined by [less]: no element is less
    than one that precedes it. *)
Definition ascending {A : Type} (less : A → A → bool) (l : list A) : Prop :=
  StronglySorted (not_after less) l.

(** [range] visits every entry of a map once, in some order; [sort.Sort]
    permutes its argument, into ascending order when [less] is a strict
    weak ordering. *)
Record LangOK {C : Type} (g : Lang C) : Prop := {
  map_range_Permutation : ∀ m, map_range g m ≡ₚ map_to_list m;
  sort_Sort_Permutation : ∀ less l, sort_Sort g less l ≡ₚ l;
  sort_Sort_ascending : ∀ less l, StrictWeakOrder less → ascending less (sort_Sort g less l) }.

(** ** The ranking of the rows *)

(** The order of costs, for [Less]. *)
Class NumericOrd (C : Type) := { num_ltb : C → C → bool }.

(** [num_ltb] is a strict total order. *)
Class NumericOrdLaws (C : Type) `{NumericOrd C} : Prop := {
  num_ltb_irrefl : ∀ a : C, num_ltb a a = false;
  num_ltb_trans : ∀ a b c : C, num_ltb a b = true → num_ltb b c = true → num_ltb a c = true;
  num_ltb_connected : ∀ a b : C, num_ltb a b = false → num_ltb b a = false → a = b }.

#[export] Instance Z_NumericOrd : NumericOrd Z := {| num_ltb := Z.ltb |}.

(** Modelled from the spec: the method [StatsByName.Less], which decides
    the order [sort.Sort] puts the rows in, is declared outside
    [handler.go].  The spec has the rows sorted descending by total cost,
    ties broken descending by count, remaining ties broken ascending by
    name; [Less a b] tells whether row [a] goes before row [b]. *)
Definition Less {C : Type} `{NumericOrd C} (a b : StatByName C) : bool :=
  if num_ltb (Cost b) (Cost a) then true
  else if num_ltb (Cost a) (Cost b) then false
  else if Count b <? Count a then true
  else if Count a <? Count b then false
  else String.ltb (Name a) (Name b).

(** Row [a] ranks strictly before row [b]: higher total cost, or equal
    total cost and higher count, or both equal and the smaller name. *)
Definition ranks_before {C : Type} `{NumericOrd C} (a b : StatByName C) : Prop :=
  num_ltb (Cost b) (Cost a) = true
  ∨ (Cost a = Cost b
     ∧ (Count b < Count a
        ∨ (Count a = Count b ∧ String.ltb (Name a) (Name b) = true))).

(** Lexicographic combination of two orders: [lt1] decides, [lt2] breaks
    the ties of [lt1]. *)
Definition lex {A : Type} (lt1 lt2 : A → A → bool) (a b : A) : bool :=
  if lt1 a b then true else if lt1 b a then false else lt2 a b.

(** ** A runnable instance of the language *)

(** [range] visits the map in the order of [map_to_list], or in the
    opposite order when [backwards] is set; [sort.Sort] is a merge sort. *)
Definition run_Lang {C : Type}
    (decode : list Byte.byte → stats_full C + error)
    (less : StatByName C → StatByName C → bool) (backwards : bool) : Lang C :=
  {| gob_Decode := decode;
     map_range := λ m, if backwards then reverse (map_to_list m) else map_to_list m;
     StatsByName_Less := less;
     sort_Sort := λ less l, merge_sort (not_after less) l |}.

(** ** The two situations of [Details] *)

(** The trace of the request is in the cache and decodes to [full], whose
    record is [stats]. *)
Definition decodes_to {C : Type} (h : Host) (g : Lang C) (r : Request)
    (full : stats_full C) (stats : RequestStats C) : Prop :=
  ∃ item, memcache_Get h (keyFull h (FormValue r "rid")) = inl item
          ∧ gob_Decode g (Value item) = inl full
          ∧ Stats full = Some stats.

(** The cache has no entry for the request, or its bytes do not decode. *)
Definition trace_unavailable {C : Type} (h : Host) (g : Lang C) (r : Request) : Prop :=
  match memcache_Get h (keyFull h (FormValue r "rid")) with
  | inr _ => True
  | inl item => ∃ err, gob_Decode g (Value item) = inr err
  end.

(** The view with only the environment populated. *)
Definition empty_view {C : Type} (h : Host) : DetailsView C :=
  {| Env := {[ "APPLICATION_ID"%string := appengine_AppID h ]};
     Record_ := None;
     Header_ := ∅;
     AllStatsByCount := [];
     Real := 0 |}.

(** The sum of durations as Go computes it, in [time.Duration]. *)
Definition Duration_sum (ds : list Z) : Z := foldl (λ acc d, wrap64 (acc + d)) 0 ds.

Definition fits_int64 (x : Z) : Prop := - 2 ^ 63 ≤ x < 2 ^ 63.

(** ** Go's [int64] as a cost type *)

#[export] Instance fits_int64_dec (x : Z) : Decision (fits_int64 x).
Proof. unfold fits_int64. apply _. Defined.

(** The values of an [int64]. *)
Definition int64 : Type := { z : Z | bool_decide (fits_int64 z) }.

Definition wrap64_fits (x : Z) : bool_decide (fits_int64 (wrap64 x)).
Proof.
  apply bool_decide_pack. unfold fits_int64, wrap64, wrap.
  pose proof (Z.mod_pos_bound (x + 2 ^ (64 - 1)) (2 ^ 64)). lia.
Qed.

(** The conversion [int64(x)]. *)
Definition to_int64 (x : Z) : int64 := exist _ (wrap64 x) (wrap64_fits x).

#[export] Instance int64_Numeric : Numeric int64 :=
  {| num_zero := to_int64 0;
     num_add := λ a b, to_int64 (proj1_sig a + proj1_sig b) |}.

#[export] Instance int64_NumericOrd : NumericOrd int64 :=
  {| num_ltb := λ a b, proj1_sig a <? proj1_sig b |}.

(** ** File *)

(** [strings.Split(s, sep)] for a separator [sep] of one byte, which is
    what [File] passes: the substrings of [s] between the occurrences of
    [sep]. *)
Fixpoint strings_Split (s : string) (sep : ascii) : list string :=
  match s with
  | EmptyString => [EmptyString]
  | String c s' =>
    if Ascii.eqb c sep then EmptyString :: strings_Split s' sep
    else match strings_Split s' sep with
         | [] => [String c EmptyString]
         | line :: lines => String c line :: lines
         end
  end.

Definition newline : ascii := "010"%char.

(** [strconv.NumError.Err] *)
Inductive NumError := ErrSyntax | ErrRange.

(** The value of a decimal digit byte. *)
Definition digit_of (c : ascii) : option Z :=
  let b := Z.of_N (N_of_ascii c) in
  if (48 <=? b) && (b <=? 57) then Some (b - 48) else None.

Definition maxUint64 : Z := 2 ^ 64 - 1.

(** The loop of [strconv.ParseUint(s, 10, bitSize)] over the bytes of [s],
    [n] being the [uint64] read so far. *)
Fixpoint ParseUint_loop (bitSize : Z) (s : string) (n : Z) : Z * option NumError :=
  match s with
  | EmptyString => (n, None)
  | String c s' =>
    match digit_of c with
    | None => (0, Some ErrSyntax)
    | Some d =>
      let cutoff := maxUint64 / 10 + 1 in
      let maxVal := 2 ^ bitSize - 1 in
      if cutoff <=? n then (maxVal, Some ErrRange)
      else
        let n := n * 10 in
        let n1 := (n + d) mod 2 ^ 64 in
        if (n1 <? n) || (maxVal <? n1) then (maxVal, Some ErrRange)
        else ParseUint_loop bitSize s' n1
    end
  end.

(** [strconv.ParseUint(s, 10, bitSize)], [bitSize = 0] meaning [IntSize]. *)
Definition ParseUint (s : string) (bitSize : Z) : Z * option NumError :=
  match s with
  | EmptyString => (0, Some ErrSyntax)
  | _ => ParseUint_loop (if bitSize =? 0 then IntSize else bitSize) s 0
  end.

(** [strconv.ParseInt(s, 10, bitSize)] *)
Definition ParseInt (s : string) (bitSize : Z) : Z * option NumError :=
  match s with
  | EmptyString => (0, Some ErrSyntax)
  | String c s' =>
    let neg := Ascii.eqb c "-" in
    let s := if Ascii.eqb c "+" || neg then s' else s in
    match ParseUint s bitSize with
    | (_, Some ErrSyntax) => (0, Some ErrSyntax)
    | (un, _) =>
      let bitSize := if bitSize =? 0 then IntSize else bitSize in
      let cutoff := 2 ^ (bitSize - 1) in
      if negb neg && (cutoff <=? un) then (cutoff - 1, Some ErrRange)
      else if neg && (cutoff <? un) then (- cutoff, Some ErrRange)
      else
        let n := wrap64 un in
        let n := if neg then wrap64 (- n) else n in
        (n, None)
    end
  end.

(** [strconv.Atoi(s)]: [ParseInt(s, 10, 0)] converted to [int]. *)
Definition Atoi (s : string) : Z * option NumError :=
  let '(i64, err) := ParseInt s 0 in (int_wrap i64, err).

(** The view handed to the ["file"] template. *)
Record FileView := {
  FEnv : gmap string string;
  Filename : string;
  Lineno : Z;
  Fp : gmap Z string }.

(** [for k, v := range lines { fp[k+1] = v }], from index [k] on. *)
Fixpoint range_lines (k : Z) (lines : list string) (fp : gmap Z string) : gmap Z string :=
  match lines with
  | [] => fp
  | v :: lines => range_lines (k + 1) lines (<[int_wrap (k + 1) := v]> fp)
  end.

Definition File (h : Host) (r : Request) : Response FileView :=
  let fname := Values_Get (URL_Query r) "f" in
  let n := Values_Get (URL_Query r) "n" in
  let lineno := (Atoi n).1 in
  match ioutil_ReadFile h fname with
  | inr err => serveError err
  | inl f =>
    let fp := range_lines 0 (strings_Split f newline) ∅ in
    ExecuteTemplate "file"
      {| FEnv := {[ "APPLICATION_ID"%string := appengine_AppID h ]};
         Filename := fname;
         Lineno := lineno;
         Fp := fp |}
  end.

(** ** Vocabulary for the properties of [File] *)

(** The number of newline bytes of a content. *)
Fixpoint count_newlines (s : string) : nat :=
  match s with
  | EmptyString => O
  | String c s' => if Ascii.eqb c newline then S (count_newlines s') else count_newlines s'
  end.

Definition is_digit (c : ascii) : bool :=
  match digit_of c with Some _ => true | None => false end.

Fixpoint all_digits (s : string) : bool :=
  match s with
  | EmptyString => true
  | String c s' => is_digit c && all_digits s'
  end.

(** The value of the run of decimal digits that [s] starts with, read
    after the digits whose value is [n]. *)
Fixpoint leading_value (s : string) (n : Z) : Z :=
  match s with
  | EmptyString => n
  | String c s' =>
    match digit_of c with
    | Some d => leading_value s' (n * 10 + d)
    | None => n
    end
  end.

(** The string starts with a minus sign. *)
Definition negative (s : string) : bool :=
  match s with
  | String c _ => Ascii.eqb c "-"
  | EmptyString => false
  end.

(** The string without its sign, if it has one. *)
Definition unsigned_part (s : string) : string :=
  match s with
  | String c s' => if Ascii.eqb c "+" || Ascii.eqb c "-" then s' else s
  | EmptyString => EmptyString
  end.

(** A decimal integer: an optional sign and one or more decimal digits. *)
Definition is_decimal (s : string) : bool :=
  match unsigned_part s with
  | EmptyString => false
  | body => all_digits body
  end.

(** What [Atoi] computes, in closed form: a syntax error and 0 for a
    string that has no digits or has a byte that is not a digit -- unless
    the digits before that byte already amount to [2 ^ 64] or more, which
    is a range error, as is a decimal integer outside of [int]; a range
    error comes with the bound of [int] on the side of the sign. *)
Definition Atoi_closed_form (s : string) : Z * option NumError :=
  let body := unsigned_part s in
  let un := leading_value body 0 in
  let bound := if negative s then MinInt else MaxInt in
  match body with
  | EmptyString => (0, Some ErrSyntax)
  | _ =>
    if 2 ^ 64 <=? un then (bound, Some ErrRange)
    else if negb (all_digits body) then (0, Some ErrSyntax)
    else if negative s then (if 2 ^ 63 <? un then (bound, Some ErrRange) else (- un, None))
    else (if 2 ^ 63 <=? un then (bound, Some ErrRange) else (un, None))
  end.

Definition digit_char (d : Z) : ascii := ascii_of_N (Z.to_N (48 + d)).

(** The decimal digits of [n], in front of [acc]; [fuel + 1] digits at
    most. *)
Fixpoint uint_digits (fuel : nat) (n : Z) (acc : string) : string :=
  let acc := String (digit_char (n mod 10)) acc in
  match fuel with
  | O => acc
  | S fuel => if n <? 10 then acc else uint_digits fuel (n / 10) acc
  end.

(** [strconv.Itoa], for an [int]. *)
Definition Itoa (k : Z) : string :=
  if k <? 0 then String "-" (uint_digits 19 (- k) EmptyString)
  else uint_digits 19 k EmptyString.

(** C8 as the specification states it: whatever is not a decimal integer
    is served with line number 0. *)
Definition malformed_line_number_is_zero : Prop :=
  ∀ (h : Host) (r : Request) (f : string),
    ioutil_ReadFile h (Values_Get (URL_Query r) "f") = inl f →
    is_decimal (Values_Get (URL_Query r) "n") = false →
    ∃ v, File h r = ExecuteTemplate "file" v ∧ Lineno v = 0.

(** ** A concrete scenario

    Three calls, two of them to the same service method; the trace is
    cached under the request identifier ["xyz"], bytes that do not decode
    under ["old"]; one source file. *)

Definition scenario_calls : list (RPCStat Z) :=
  [ {| RPCStat_Name := "svcA.Get"; RPCStat_Cost := 10; RPCStat_Duration := 10000000 |};
    {| RPCStat_Name := "svcB.Fetch"; RPCStat_Cost := 20; RPCStat_Duration := 50000000 |};
    {| RPCStat_Name := "svcA.Get"; RPCStat_Cost := 15; RPCStat_Duration := 20000000 |} ].

Definition scenario_stats : RequestStats Z := {| RPCStats := scenario_calls |}.

Definition scenario_full : stats_full Z :=
  {| Header := {[ "Accept"%string := [ "*/*"%string ] ]}; Stats := Some scenario_stats |}.

Definition scenario_source : string :=
  String.append "package main"
    (String newline (String.append "func main() {}" (String newline ""))).

Definition scenario_host : Host :=
  {| appengine_AppID := "app";
     keyFull := λ rid, ("__appstats__:full:" ++ rid)%string;
     memcache_Get := λ key,
       if decide (key = "__appstats__:full:xyz"%string)
       then inl {| Value := [ Byte.x01 ] |}
       else if decide (key = "__appstats__:full:old"%string)
       then inl {| Value := [ Byte.x02 ] |}
       else inr (errors_New "memcache: cache miss");
     ioutil_ReadFile := λ name,
       if decide (name = "main.go"%string)
       then inl scenario_source
       else inr (errors_New "open: no such file or directory") |}.

Definition scenario_decode (b : list Byte.byte) : stats_full Z + error :=
  match b with
  | [ Byte.x01 ] => inl scenario_full
  | _ => inr (errors_New "gob: unexpected EOF")
  end.

Definition scenario_lang : Lang Z := run_Lang scenario_decode Less false.

Definition details_request (rid : string) : Request :=
  {| URL_Path := "/_ah/stats/details"; URL_Query := ∅; Form := {[ "rid"%string := [ rid ] ]} |}.

Definition file_request (f n : string) : Request :=
  {| URL_Path := "/_ah/stats/file";
     URL_Query := {[ "f"%string := [ f ]; "n"%string := [ n ] ]};
     Form := ∅ |}.

(** Two groups that tie on cost and count; a record whose durations
    overflow [int64]; a decoder that yields no record. *)
Definition tie_calls : list (RPCStat Z) :=
  [ {| RPCStat_Name := "beta"; RPCStat_Cost := 1; RPCStat_Duration := 1 |};
    {| RPCStat_Name := "alpha"; RPCStat_Cost := 2; RPCStat_Duration := 1 |};
    {| RPCStat_Name := "beta"; RPCStat_Cost := 4; RPCStat_Duration := 1 |};
    {| RPCStat_Name := "alpha"; RPCStat_Cost := 3; RPCStat_Duration := 1 |};
    {| RPCStat_Name := "gamma"; RPCStat_Cost := 5; RPCStat_Duration := 1 |} ].

Definition overflow_calls : list (RPCStat Z) :=
  [ {| RPCStat_Name := "a"; RPCStat_Cost := 0; RPCStat_Duration := 2 ^ 63 - 1 |};
    {| RPCStat_Name := "b"; RPCStat_Cost := 0; RPCStat_Duration := 1 |} ].

Definition decode_to (calls : option (list (RPCStat Z))) (b : list Byte.byte)
    : stats_full Z + error :=
  inl {| Header := ∅; Stats := (λ rs, {| RPCStats := rs |}) <$> calls |}.

(** A host whose only file is empty. *)
Definition empty_file_host : Host :=
  {| appengine_AppID := "app";
     keyFull := λ rid, rid;
     memcache_Get := λ _, inr (errors_New "memcache: cache miss");
     ioutil_ReadFile := λ name,
       if decide (name = "empty.txt"%string) then inl EmptyString
       else inr (errors_New "open: no such file or directory") |}.

Definition rendered {V : Type} (resp : Response V) : option V :=
  match resp with
  | ExecuteTemplate _ v => Some v
  | _ => None
  end.

(** ** Vocabulary for the aggregation *)

(** The events of a record that carry the name [k], in their order. *)
Definition events_named {C : Type} (k : string) (rs : list (RPCStat C)) : list (RPCStat C) :=
  filter (λ e, RPCStat_Name e = k) rs.

(** The sum of costs as the loop of [Details] computes it: from the zero
    value, adding one cost after the other. *)
Definition Cost_sum `{Numeric C} (cs : list C) : C := foldl num_add num_zero cs.

(** The names of the events of a record. *)
Definition names_of {C : Type} (rs : list (RPCStat C)) : gset string :=
  list_to_set (RPCStat_Name <$> rs).

(** [strings.Join(a, sep)] for a separator of one byte. *)
Fixpoint strings_Join (a : list string) (sep : ascii) : string :=
  match a with
  | [] => EmptyString
  | [ s ] => s
  | s :: rest => String.append s (String sep (strings_Join rest sep))
  end.

(** The byte [c] occurs in [s]. *)
Fixpoint contains_byte (s : string) (c : ascii) : bool :=
  match s with
  | EmptyString => false
  | String d s' => Ascii.eqb d c || contains_byte s' c
  end.

(** ** Static *)

(** [strings.LastIndex(s, sep)] for a separator of one byte: the index of
    the last occurrence of [sep] in [s], or -1; [i] is the index of the
    first byte of [s] and [last] the result for the bytes before it. *)
Fixpoint LastIndex_from (s : string) (sep : ascii) (i last : Z) : Z :=
  match s with
  | EmptyString => last
  | String c s' => LastIndex_from s' sep (i + 1) (if Ascii.eqb c sep then i else last)
  end.

Definition strings_LastIndex (s : string) (sep : ascii) : Z := LastIndex_from s sep 0 (-1).

(** The slices [s[i:]] and [s[:i]], for [i] up to the length of [s]. *)
Fixpoint string_from (s : string) (i : nat) {struct i} : string :=
  match i with
  | O => s
  | S i => match s with
           | String _ s' => string_from s' i
           | EmptyString => s
           end
  end.

Fixpoint string_to (s : string) (i : nat) {struct i} : string :=
  match i with
  | O => EmptyString
  | S i => match s with
           | String c s' => String c (string_to s' i)
           | EmptyString => EmptyString
           end
  end.

(** [strings.HasPrefix] and [strings.HasSuffix] *)
Definition strings_HasPrefix (s prefix : string) : bool :=
  (String.length prefix <=? String.length s)%nat
  && String.eqb (string_to s (String.length prefix)) prefix.

Definition strings_HasSuffix (s suffix : string) : bool :=
  (String.length suffix <=? String.length s)%nat
  && String.eqb (string_from s (String.length s - String.length suffix)) suffix.

(** [textproto.CanonicalMIMEHeaderKey] on a key of letters, digits and
    hyphens: upper case for the first letter and for a letter after a
    hyphen, lower case for the other letters. *)
Definition to_upper (c : ascii) : ascii :=
  let b := N_of_ascii c in
  if ((97 <=? b) && (b <=? 122))%N then ascii_of_N (b - 32) else c.

Definition to_lower (c : ascii) : ascii :=
  let b := N_of_ascii c in
  if ((65 <=? b) && (b <=? 90))%N then ascii_of_N (b + 32) else c.

Fixpoint canonical_from (s : string) (upper : bool) : string :=
  match s with
  | EmptyString => EmptyString
  | String c s' =>
    let c := if upper then to_upper c else to_lower c in
    String c (canonical_from s' (Ascii.eqb c "-"))
  end.

Definition CanonicalMIMEHeaderKey (s : string) : string := canonical_from s true.

(** [http.Header.Set]: the value replaces what the canonical key held. *)
Definition Header_Set (h : gmap string (list string)) (key value : string)
    : gmap string (list string) :=
  <[CanonicalMIMEHeaderKey key := [ value ]]> h.

(** The variables that hold the static assets, declared outside
    [handler.go]. *)
Record Assets := {
  app_engine_logo_sm_gif : list Byte.byte;
  appstats_css_css : list Byte.byte;
  appstats_js_js : list Byte.byte;
  gantt_js : list Byte.byte;
  minus_gif : list Byte.byte;
  pix_gif : list Byte.byte;
  plus_gif : list Byte.byte }.

(** The registry [staticFiles] that [init] builds. *)
Definition init_staticFiles (a : Assets) : gmap string (list Byte.byte) :=
  <["app_engine_logo_sm.gif"%string := app_engine_logo_sm_gif a]>
  (<["appstats_css.css"%string := appstats_css_css a]>
  (<["appstats_js.js"%string := appstats_js_js a]>
  (<["gantt.js"%string := gantt_js a]>
  (<["minus.gif"%string := minus_gif a]>
  (<["pix.gif"%string := pix_gif a]>
  (<["plus.gif"%string := plus_gif a]> ∅)))))).

(** [time.Hour], in nanoseconds. *)
Definition time_Hour : Z := 3600 * 1000000000.

(** [time.RFC1123] *)
Definition time_RFC1123 : string := "Mon, 02 Jan 2006 15:04:05 MST".

(** [user.User], with the field [AppstatsHandler] reads. *)
Record User := { Admin : bool }.

(** What [AppstatsHandler] and [Static] take from the process and the
    platform: whether this is the development server, the signed-in user
    of a request and the login URL for a destination, the text of the
    request's URL, the three URL constants (declared outside
    [handler.go]), the registry [staticFiles], the clock (an instant is a
    count of nanoseconds) and [time.Time.Format]. *)
Record Site := {
  appengine_IsDevAppServer : bool;
  user_Current : Request → option User;
  user_LoginURL : Request → string → string + error;
  URL_String : Request → string;
  detailsURL : string;
  fileURL : string;
  staticURL : string;
  staticFiles : gmap string (list Byte.byte);
  time_Now : Z;
  Time_Format : Z → string → string }.

(** What [Static] leaves in its [http.ResponseWriter]: the header it set
    and the bytes it wrote, [None] when it wrote nothing. *)
Record StaticReply := {
  SHeader : gmap string (list string);
  Written : option (list Byte.byte) }.

(** The name that [Static] looks up: [path[LastIndex(path, "/")+1:]]. *)
Definition Static_fname (path : string) : string :=
  string_from path (Z.to_nat (strings_LastIndex path "/" + 1)).

Definition Static (s : Site) (r : Request) : StaticReply :=
  let fname := Static_fname (URL_Path r) in
  match staticFiles s !! fname with
  | Some v =>
    let h : gmap string (list string) := ∅ in
    let h :=
      if strings_HasSuffix (URL_Path r) ".css" then Header_Set h "Content-type" "text/css"
      else if strings_HasSuffix (URL_Path r) ".js"
           then Header_Set h "Content-type" "text/javascript"
           else h in
    let h := Header_Set h "Cache-Control" "public, max-age=expiry" in
    let expires := time_Now s + time_Hour in
    let h := Header_Set h "Expires" (Time_Format s expires time_RFC1123) in
    {| SHeader := h; Written := Some v |}
  | None => {| SHeader := ∅; Written := None |}
  end.

(** ** AppstatsHandler *)

Definition StatusTemporaryRedirect : Z := 307.
Definition StatusForbidden : Z := 403.
Definition StatusNotFound : Z := 404.

(** What [AppstatsHandler] does with a request: it redirects, or replies
    itself with [http.Error] (a [Response] without a template), or runs
    one of the three handlers. *)
Inductive Handled (C : Type) :=
| http_Redirect (url : string) (code : Z)
| Replied (resp : Response Empty_set)
| ran_Details (resp : Response (DetailsView C))
| ran_File (resp : Response FileView)
| ran_Static (resp : StaticReply).
Arguments http_Redirect {C} url code.
Arguments Replied {C} resp.
Arguments ran_Details {C} resp.
Arguments ran_File {C} resp.
Arguments ran_Static {C} resp.

(** [http.NotFound] *)
Definition http_NotFound : Response Empty_set :=
  http_Error "404 page not found" StatusNotFound.

(** The second half of [AppstatsHandler]: the choice of the handler. *)
Definition route {C : Type} `{Numeric C} (s : Site) (h : Host) (g : Lang C) (r : Request)
    : Handled C :=
  if decide (detailsURL s = URL_Path r) then ran_Details (Details h g r)
  else if decide (fileURL s = URL_Path r) then ran_File (File h r)
  else if strings_HasPrefix (URL_Path r) (staticURL s) then ran_Static (Static s r)
  else Replied http_NotFound.

Definition AppstatsHandler {C : Type} `{Numeric C} (s : Site) (h : Host) (g : Lang C)
    (r : Request) : Handled C :=
  if appengine_IsDevAppServer s then route s h g r
  else match user_Current s r with
       | None =>
         match user_LoginURL s r (URL_String s r) with
         | inl loginURL => http_Redirect loginURL StatusTemporaryRedirect
         | inr err => Replied (serveError err)
         end
       | Some u =>
         if negb (Admin u) then Replied (http_Error "Forbidden" StatusForbidden)
         else route s h g r
       end.

(** The caller may use the tool: this is the development server, or the
    signed-in user is an administrator. *)
Definition authorized (s : Site) (r : Request) : Prop :=
  appengine_IsDevAppServer s = true
  ∨ ∃ u, user_Current s r = Some u ∧ Admin u = true.

(** [AppstatsHandler] went past its gate: it ran a handler or found no
    handler for the path. *)
Definition passed_gate {C : Type} (res : Handled C) : Prop :=
  match res with
  | ran_Details _ | ran_File _ | ran_Static _ => True
  | Replied resp => resp = http_NotFound
  | http_Redirect _ _ => False
  end.

(** ** A site for the scenario *)

Definition scenario_assets : Assets :=
  {| app_engine_logo_sm_gif := [ Byte.x47; Byte.x49; Byte.x46 ];
     appstats_css_css := [ Byte.x62; Byte.x6f; Byte.x64; Byte.x79 ];
     appstats_js_js := [ Byte.x76; Byte.x61; Byte.x72 ];
     gantt_js := [ Byte.x2f; Byte.x2f ];
     minus_gif := [ Byte.x47; Byte.x2d ];
     pix_gif := [ Byte.x47 ];
     plus_gif := [ Byte.x47; Byte.x2b ] |}.

(** A production site: requests whose form has [user=admin] come from an
    administrator, those with [user=guest] from another user, the others
    from nobody. *)
Definition scenario_site : Site :=
  {| appengine_IsDevAppServer := false;
     user_Current := λ r,
       if decide (FormValue r "user" = "admin"%string) then Some {| Admin := true |}
       else if decide (FormValue r "user" = "guest"%string) then Some {| Admin := false |}
       else None;
     user_LoginURL := λ _ dest, inl (String.append "/_ah/login?continue=" dest);
     URL_String := URL_Path;
     detailsURL := "/_ah/stats/details";
     fileURL := "/_ah/stats/file";
     staticURL := "/_ah/stats/static/";
     staticFiles := init_staticFiles scenario_assets;
     time_Now := 1383177600000000000;
     Time_Format := λ t _, Itoa (t / 1000000000) |}.

Definition site_request (path user : string) : Request :=
  {| URL_Path := path; URL_Query := ∅; Form := {[ "user"%string := [ user ] ]} |}.

(** The first [n] lines of a line map, in the order of their keys. *)
Definition Fp_lines (fp : gmap Z string) (n : nat) : list string :=
  (λ j : nat, default EmptyString (fp !! (Z.of_nat j + 1))) <$> seq 0 n.

(** The names that [init] registers. *)
Definition registered_names : list string :=
  [ "app_engine_logo_sm.gif"; "appstats_css.css"; "appstats_js.js"; "gantt.js";
    "minus.gif"; "pix.gif"; "plus.gif" ]%string.

(** The asset that [init] registers under a name. *)
Definition asset_of (a : Assets) (name : string) : option (list Byte.byte) :=
  if decide (name = "app_engine_logo_sm.gif"%string) then Some (app_engine_logo_sm_gif a)
  else if decide (name = "appstats_css.css"%string) then Some (appstats_css_css a)
  else if decide (name = "appstats_js.js"%string) then Some (appstats_js_js a)
  else if decide (name = "gantt.js"%string) then Some (gantt_js a)
  else if decide (name = "minus.gif"%string) then Some (minus_gif a)
  else if decide (name = "pix.gif"%string) then Some (pix_gif a)
  else if decide (name = "plus.gif"%string) then Some (plus_gif a)
  else None.

(** The content type that goes with a registered name. *)
Definition content_type_of (name : string) : option (list string) :=
  if decide (name = "appstats_css.css"%string) then Some [ "text/css"%string ]
  else if decide (name = "appstats_js.js"%string ∨ name = "gantt.js"%string)
       then Some [ "text/javascript"%string ]
       else None.

(** A cache that holds the scenario's events under ["fwd"] and the same
    events in the opposite order under ["bwd"]. *)
Definition order_host : Host :=
  {| appengine_AppID := "app";
     keyFull := λ rid, rid;
     memcache_Get := λ key,
       if decide (key = "fwd"%string) then inl {| Value := [ Byte.x01 ] |}
       else if decide (key = "bwd"%string) then inl {| Value := [ Byte.x02 ] |}
       else inr (errors_New "memcache: cache miss");
     ioutil_ReadFile := λ _, inr (errors_New "open: no such file or directory") |}.

Definition order_decode (b : list Byte.byte) : stats_full Z + error :=
  match b with
  | [ Byte.x01 ] => inl {| Header := ∅; Stats := Some {| RPCStats := scenario_calls |} |}
  | [ Byte.x02 ] =>
    inl {| Header := ∅; Stats := Some {| RPCStats := reverse scenario_calls |} |}
  | _ => inr (errors_New "gob: unexpected EOF")
  end.

(** A [Less] that ranks by count alone. *)
Definition Less_by_Count (a b : StatByName Z) : bool := Count a <? Count b.

(** * Properties *)

(** ** Wrap-around *)

Lemma wrap_small bits x :
  0 < bits → - 2 ^ (bits - 1) ≤ x < 2 ^ (bits - 1) → wrap bits x = x.
Proof.
  intros Hb Hx. unfold wrap.
  assert (2 ^ bits = 2 * 2 ^ (bits - 1)) as ->.
  { rewrite <- Z.pow_succ_r by lia. f_equal. lia. }
  rewrite Z.mod_small; lia.
Qed.

Lemma wrap_range bits x :
  0 < bits → - 2 ^ (bits - 1) ≤ wrap bits x < 2 ^ (bits - 1).
Proof.
  intros Hb. unfold wrap.
  assert (2 ^ bits = 2 * 2 ^ (bits - 1)) as E.
  { rewrite <- Z.pow_succ_r by lia. f_equal. lia. }
  assert (0 < 2 ^ (bits - 1)) by (apply Z.pow_pos_nonneg; lia).
  pose proof (Z.mod_pos_bound (x + 2 ^ (bits - 1)) (2 ^ bits)). lia.
Qed.

Lemma wrap_add_l bits x y : wrap bits (wrap bits x + y) = wrap bits (x + y).
Proof.
  unfold wrap. f_equal.
  replace ((x + 2 ^ (bits - 1)) mod 2 ^ bits - 2 ^ (bits - 1) + y + 2 ^ (bits - 1))
    with ((x + 2 ^ (bits - 1)) mod 2 ^ bits + y) by lia.
  rewrite Zplus_mod_idemp_l. f_equal. lia.
Qed.

Lemma wrap_add_r bits x y : wrap bits (x + wrap bits y) = wrap bits (x + y).
Proof. rewrite (Z.add_comm x), wrap_add_l. f_equal. lia. Qed.

(** ** Sums over lists and maps in a commutative monoid *)

#[export] Instance Z_NumericLaws : NumericLaws Z.
Proof. split; simpl; intros; lia. Qed.

Section sums.
Context {M : Type} `{NumericLaws M}.

Lemma num_sum_cons (x : M) l : num_sum (x :: l) = num_add x (num_sum l).
Proof. reflexivity. Qed.

Lemma num_add_zero_r (a : M) : num_add a num_zero = a.
Proof. rewrite num_add_comm. apply num_add_zero_l. Qed.

Lemma num_sum_app (l1 l2 : list M) :
  num_sum (l1 ++ l2) = num_add (num_sum l1) (num_sum l2).
Proof.
  induction l1 as [|x l1 IH].
  - symmetry. apply num_add_zero_l.
  - rewrite <- app_comm_cons, !num_sum_cons, IH. apply num_add_assoc.
Qed.

Lemma num_sum_Permutation (l1 l2 : list M) :
  l1 ≡ₚ l2 → num_sum l1 = num_sum l2.
Proof.
  induction 1 as [|x l1 l2 _ IH|x y l|l1 l2 l3 _ IH1 _ IH2].
  - reflexivity.
  - rewrite !num_sum_cons. now f_equal.
  - rewrite !num_sum_cons, !num_add_assoc. f_equal. apply num_add_comm.
  - congruence.
Qed.

Context {K V : Type} `{Countable K}.
Implicit Types (f g : K → V → M) (m : gmap K V).

Lemma map_sum_empty f : map_sum f ∅ = num_zero.
Proof. unfold map_sum. now rewrite map_to_list_empty. Qed.

Lemma map_sum_insert_None f m k v :
  m !! k = None → map_sum f (<[k:=v]> m) = num_add (f k v) (map_sum f m).
Proof.
  intros Hk. unfold map_sum.
  rewrite (num_sum_Permutation _ ((λ kv, f kv.1 kv.2) <$> ((k, v) :: map_to_list m))).
  - reflexivity.
  - apply fmap_Permutation. now apply map_to_list_insert.
Qed.

Lemma map_sum_delete f m k v :
  m !! k = Some v → map_sum f m = num_add (f k v) (map_sum f (delete k m)).
Proof.
  intros Hk. rewrite <- (map_sum_insert_None f (delete k m) k v).
  - now rewrite insert_delete_id.
  - apply lookup_delete_eq.
Qed.

Lemma map_sum_insert f m k v :
  map_sum f (<[k:=v]> m) = num_add (f k v) (map_sum f (delete k m)).
Proof.
  rewrite <- insert_delete_eq. apply map_sum_insert_None, lookup_delete_eq.
Qed.

Lemma map_sum_ext f g m :
  (∀ k v, m !! k = Some v → f k v = g k v) → map_sum f m = map_sum g m.
Proof.
  intros E. unfold map_sum. f_equal. apply list_fmap_ext.
  intros i [k v] Hi. apply E. apply elem_of_map_to_list.
  eapply list_elem_of_lookup_2. exact Hi.
Qed.
End sums.

(** ** The first loop of [Details] *)

Section aggregate_facts.
Context {C : Type} `{NumericLaws C}.
Implicit Types (a : Acc C) (r : RPCStat C) (rs : list (RPCStat C)).

Lemma aggregate_snoc rs r :
  aggregate (rs ++ [r]) = aggregate_step (aggregate rs) r.
Proof. unfold aggregate. now rewrite foldl_snoc. Qed.

(** [_real] is the wrapped sum of all durations. *)
Lemma aggregate_real rs :
  _real (aggregate rs) = wrap64 (sumZ (RPCStat_Duration <$> rs)).
Proof.
  induction rs as [|r rs IH] using rev_ind.
  - reflexivity.
  - rewrite aggregate_snoc. simpl. rewrite IH, fmap_app. unfold wrap64.
    rewrite wrap_add_l. f_equal.
    change sumZ with (@num_sum Z _). rewrite num_sum_app. simpl. lia.
Qed.

(** The two maps have the same keys. *)
Lemma aggregate_dom rs k :
  byCount (aggregate rs) !! k = None ↔ durationCount (aggregate rs) !! k = None.
Proof.
  induction rs as [|r rs IH] using rev_ind.
  - simpl. now rewrite !lookup_empty.
  - rewrite aggregate_snoc. simpl.
    destruct (decide (RPCStat_Name r = k)) as [->|Hne].
    + rewrite !lookup_insert_eq. split; discriminate.
    + rewrite !lookup_insert_ne by done.
      destruct (byCount (aggregate rs) !! RPCStat_Name r); [done|].
      now rewrite lookup_insert_ne.
Qed.

(** The costs of the groups add up to the costs of the events. *)
Lemma aggregate_cost rs :
  map_sum (λ _ v, cost v) (byCount (aggregate rs)) = num_sum (RPCStat_Cost <$> rs).
Proof.
  induction rs as [|r rs IH] using rev_ind.
  - apply map_sum_empty.
  - rewrite aggregate_snoc, fmap_app, num_sum_app. simpl.
    rewrite num_add_zero_r, <- IH, map_sum_insert. simpl.
    destruct (byCount (aggregate rs) !! RPCStat_Name r) as [v|] eqn:Hk; simpl.
    + rewrite (map_sum_delete _ _ _ _ Hk).
      rewrite (num_add_comm (cost v)), <- num_add_assoc. apply num_add_comm.
    + rewrite delete_id by done. rewrite num_add_zero_l. apply num_add_comm.
Qed.

Lemma map_sum_nonneg {K V} `{Countable K} (f : K → V → Z) (m : gmap K V) :
  (∀ k v, m !! k = Some v → 0 ≤ f k v) → 0 ≤ map_sum f m.
Proof.
  intros Hf. unfold map_sum.
  assert (Forall (λ kv, 0 ≤ f kv.1 kv.2) (map_to_list m)) as Hall.
  { apply Forall_forall. intros [k v] Hkv. now apply Hf, elem_of_map_to_list. }
  induction Hall as [|kv l Hkv _ IH]; [done|].
  rewrite fmap_cons, num_sum_cons.
  change (0 ≤ f kv.1 kv.2 + num_sum ((λ kv, f kv.1 kv.2) <$> l)). lia.
Qed.

(** Every group has a positive count and the counts add up to the number
    of events, as long as that number fits an [int] (the length of a Go
    slice always does). *)
Lemma aggregate_count rs :
  Z.of_nat (length rs) ≤ MaxInt →
  (∀ k v, byCount (aggregate rs) !! k = Some v → 1 ≤ count v) ∧
  map_sum (λ _ v, count v) (byCount (aggregate rs)) = Z.of_nat (length rs).
Proof.
  induction rs as [|r rs IH] using rev_ind; intros Hlen.
  - split; [intros k v; simpl; now rewrite lookup_empty | exact (map_sum_empty _)].
  - rewrite length_app in Hlen |- *. simpl in Hlen |- *.
    destruct IH as [Hpos Hsum]; [lia|].
    rewrite aggregate_snoc. simpl.
    set (bc := byCount (aggregate rs)) in *. set (k := RPCStat_Name r).
    assert (0 ≤ map_sum (λ _ (v : cVal C), count v) (delete k bc)) as Hdel.
    { apply map_sum_nonneg. intros j v [_ Hj]%lookup_delete_Some.
      specialize (Hpos j v Hj). lia. }
    assert (int_wrap (count (default cVal_zero (bc !! k)) + 1)
            = count (default cVal_zero (bc !! k)) + 1
            ∧ 0 ≤ count (default cVal_zero (bc !! k))) as [Hw Hge].
    { destruct (bc !! k) as [v|] eqn:Hk; simpl.
      - pose proof (Hpos k v Hk).
        rewrite (map_sum_delete _ _ _ _ Hk) in Hsum. simpl in Hsum.
        split; [|lia]. apply wrap_small; [done|].
        unfold MaxInt, IntSize in *. lia.
      - split; [|lia]. now apply wrap_small. }
    split.
    + intros j v. destruct (decide (k = j)) as [<-|Hne].
      * rewrite lookup_insert_eq. intros [= <-]. simpl. lia.
      * rewrite lookup_insert_ne by done. apply Hpos.
    + rewrite map_sum_insert. simpl. rewrite Hw.
      destruct (bc !! k) as [v|] eqn:Hk; simpl.
      * rewrite (map_sum_delete _ _ _ _ Hk) in Hsum. simpl in Hsum. lia.
      * rewrite delete_id in * by done. lia.
Qed.

(** The durations of the groups add up to the durations of the events,
    in [int64] arithmetic. *)
Lemma aggregate_duration rs :
  wrap64 (map_sum (λ k _, default 0 (durationCount (aggregate rs) !! k))
                  (byCount (aggregate rs)))
  = wrap64 (sumZ (RPCStat_Duration <$> rs)).
Proof.
  induction rs as [|r rs IH] using rev_ind.
  - reflexivity.
  - rewrite aggregate_snoc, fmap_app.
    change sumZ with (@num_sum Z _) in *. rewrite num_sum_app.
    unfold wrap64 in *. rewrite <- wrap_add_l, <- IH, wrap_add_l. simpl.
    set (bc := byCount (aggregate rs)). set (dc := durationCount (aggregate rs)).
    set (k := RPCStat_Name r). set (d := RPCStat_Duration r).
    rewrite map_sum_insert. rewrite lookup_insert_eq. simpl.
    set (dc0 := match bc !! k with Some _ => dc | None => <[k:=0]> dc end).
    rewrite (map_sum_ext _ (λ j _, default 0 (dc !! j)) (delete k bc)).
    2:{ intros j v [Hne _]%lookup_delete_Some. rewrite lookup_insert_ne by done.
        subst dc0. destruct (bc !! k); [done|]. now rewrite lookup_insert_ne. }
    rewrite wrap_add_l.
    destruct (bc !! k) as [v|] eqn:Hk; subst dc0.
    + rewrite (map_sum_delete _ bc k v Hk). simpl. f_equal. lia.
    + rewrite lookup_insert_eq, delete_id by done. simpl. f_equal. lia.
Qed.

Lemma sumZ_nonneg (l : list Z) : Forall (λ x, 0 ≤ x) l → 0 ≤ sumZ l.
Proof. induction 1; simpl; lia. Qed.

(** Without negative durations and without overflow the group durations
    are exact. *)
Lemma aggregate_duration_exact rs :
  Forall (λ e, 0 ≤ RPCStat_Duration e) rs →
  sumZ (RPCStat_Duration <$> rs) < 2 ^ 63 →
  (∀ k d, durationCount (aggregate rs) !! k = Some d → 0 ≤ d) ∧
  map_sum (λ k _, default 0 (durationCount (aggregate rs) !! k))
          (byCount (aggregate rs))
  = sumZ (RPCStat_Duration <$> rs).
Proof.
  induction rs as [|r rs IH] using rev_ind; intros Hpos Hfit.
  - split; [intros k d; simpl; now rewrite lookup_empty | exact (map_sum_empty _)].
  - apply Forall_app in Hpos as [Hpos Hr]. rewrite Forall_singleton in Hr.
    rewrite fmap_app in Hfit |- *.
    change sumZ with (@num_sum Z _) in Hfit |- *. rewrite num_sum_app in Hfit |- *.
    change (@num_sum Z _) with sumZ in *. simpl in Hfit |- *.
    assert (0 ≤ sumZ (RPCStat_Duration <$> rs)) as Hge.
    { apply sumZ_nonneg, Forall_fmap. exact Hpos. }
    destruct IH as [Hdc Hsum]; [done|lia|].
    rewrite aggregate_snoc. simpl.
    set (bc := byCount (aggregate rs)) in *.
    set (dc := durationCount (aggregate rs)) in *.
    set (k := RPCStat_Name r). set (d := RPCStat_Duration r) in *.
    set (dc0 := match bc !! k with Some _ => dc | None => <[k:=0]> dc end).
    assert (∀ j x, dc0 !! j = Some x → 0 ≤ x) as Hdc0.
    { subst dc0. destruct (bc !! k); [done|]. intros j x.
      destruct (decide (k = j)) as [<-|Hne].
      - rewrite lookup_insert_eq. intros [= <-]. lia.
      - rewrite lookup_insert_ne by done. apply Hdc. }
    assert (0 ≤ map_sum (λ j (_ : cVal C), default 0 (dc !! j)) (delete k bc)) as Hdel.
    { apply map_sum_nonneg. intros j v _.
      destruct (dc !! j) as [x|] eqn:Hj; simpl; [exact (Hdc j x Hj) | lia]. }
    assert (0 ≤ default 0 (dc0 !! k)
            ∧ default 0 (dc0 !! k) + map_sum (λ j (_ : cVal C), default 0 (dc !! j)) (delete k bc)
              = sumZ (RPCStat_Duration <$> rs)) as [Hd0 Hd0sum].
    { split.
      - destruct (dc0 !! k) as [x|] eqn:Hk; simpl; [exact (Hdc0 k x Hk) | lia].
      - subst dc0. destruct (bc !! k) as [v|] eqn:Hk.
        + rewrite (map_sum_delete _ bc k v Hk) in Hsum. exact Hsum.
        + rewrite lookup_insert_eq, delete_id by done. simpl. exact Hsum. }
    assert (wrap64 (default 0 (dc0 !! k) + d) = default 0 (dc0 !! k) + d) as Hw.
    { apply wrap_small; [done|]. lia. }
    rewrite Hw. split.
    + intros j x. destruct (decide (k = j)) as [<-|Hne].
      * rewrite lookup_insert_eq. intros [= <-]. lia.
      * rewrite lookup_insert_ne by done. apply Hdc0.
    + rewrite map_sum_insert, lookup_insert_eq. simpl.
      rewrite (map_sum_ext _ (λ j _, default 0 (dc !! j)) (delete k bc)).
      2:{ intros j v [Hne _]%lookup_delete_Some. rewrite lookup_insert_ne by done.
          subst dc0. destruct (bc !! k); [done|]. now rewrite lookup_insert_ne. }
      lia.
Qed.
End aggregate_facts.

(** ** The rows built by the second loop of [Details] *)

Lemma Duration_sum_wrap ds : Duration_sum ds = wrap64 (sumZ ds).
Proof.
  unfold Duration_sum. induction ds as [|d ds IH] using rev_ind; [done|].
  rewrite foldl_snoc, IH. unfold wrap64. rewrite wrap_add_l. f_equal.
  change sumZ with (@num_sum Z _). rewrite num_sum_app. simpl. lia.
Qed.

Section rows.
Context {C : Type} `{Numeric C}.
Variable g : Lang C.
Hypothesis g_ok : LangOK g.
Implicit Types (a : Acc C).

Lemma rows_Permutation a :
  rows g a ≡ₚ row_of (durationCount a) <$> map_to_list (byCount a).
Proof.
  unfold rows. cbv zeta. rewrite (sort_Sort_Permutation g g_ok).
  apply fmap_Permutation, (map_range_Permutation g g_ok).
Qed.

Lemma rows_sum {M} `{NumericLaws M} (f : StatByName C → M) a :
  num_sum (f <$> rows g a)
  = map_sum (λ k v, f (row_of (durationCount a) (k, v))) (byCount a).
Proof.
  rewrite (num_sum_Permutation _
             (f <$> (row_of (durationCount a) <$> map_to_list (byCount a)))).
  - unfold map_sum. now rewrite <- list_fmap_compose.
  - apply fmap_Permutation, rows_Permutation.
Qed.

Lemma rows_NoDup_Name a : NoDup (Name <$> rows g a).
Proof.
  rewrite rows_Permutation, <- list_fmap_compose.
  apply (NoDup_fst_map_to_list (byCount a)).
Qed.

Lemma rows_elem_of a x :
  x ∈ rows g a ↔ ∃ k v, byCount a !! k = Some v ∧ x = row_of (durationCount a) (k, v).
Proof.
  rewrite rows_Permutation, list_elem_of_fmap. split.
  - intros [[k v] [-> Hkv%elem_of_map_to_list]]. eauto.
  - intros (k & v & Hkv & ->). exists (k, v). now rewrite elem_of_map_to_list.
Qed.

(** What [Details] renders when the trace decodes. *)
Lemma Details_decoded h r full stats :
  decodes_to h g r full stats →
  Details h g r = ExecuteTemplate "details"
    {| Env := {[ "APPLICATION_ID"%string := appengine_AppID h ]};
       Record_ := Some stats;
       Header_ := Header full;
       AllStatsByCount := rows g (aggregate (RPCStats stats));
       Real := _real (aggregate (RPCStats stats)) |}.
Proof.
  intros (item & Hget & Hdec & Hstats). unfold Details.
  now rewrite Hget, Hdec, Hstats.
Qed.
End rows.

(** What [Details] renders when the trace is missing or does not decode. *)
Lemma Details_unavailable {C : Type} `{Numeric C} h (g : Lang C) r :
  trace_unavailable h g r → Details h g r = ExecuteTemplate "details" (empty_view h).
Proof.
  unfold trace_unavailable, Details.
  destruct (memcache_Get h _) as [item|e]; [|done].
  now intros [err ->].
Qed.

(** ** The runnable language meets what is assumed of the language *)

Lemma not_after_Transitive {A} (less : A → A → bool) :
  StrictWeakOrder less → Transitive (not_after less).
Proof. intros Hswo a b c Hab Hbc. exact (swo_incomparable less Hswo c b a Hbc Hab). Qed.

Lemma not_after_Total {A} (less : A → A → bool) :
  StrictWeakOrder less → Total (not_after less).
Proof.
  intros Hswo a b. unfold not_after.
  destruct (less b a) eqn:Hba; [|now left].
  destruct (less a b) eqn:Hab; [|now right].
  pose proof (swo_trans less Hswo a b a Hab Hba) as Haa.
  now rewrite (swo_irrefl less Hswo) in Haa.
Qed.

Lemma run_Lang_OK {C} decode (less : StatByName C → StatByName C → bool) backwards :
  LangOK (run_Lang decode less backwards).
Proof.
  split; simpl.
  - intros m. destruct backwards; [apply reverse_Permutation | done].
  - intros less' l. apply merge_sort_Permutation.
  - intros less' l Hswo. unfold ascending.
    pose proof (not_after_Transitive less' Hswo).
    pose proof (not_after_Total less' Hswo).
    apply StronglySorted_merge_sort; apply _.
Qed.

Lemma scenario_decodes :
  decodes_to scenario_host scenario_lang (details_request "xyz") scenario_full scenario_stats.
Proof. now exists {| Value := [ Byte.x01 ] |}. Qed.

(** ** Conservation of counts, costs and durations *)

Section conservation.
Context {C : Type} `{NumericLaws C}.
Variables (h : Host) (g : Lang C) (r : Request).
Variables (full : stats_full C) (stats : RequestStats C).
Hypothesis g_ok : LangOK g.
Hypothesis decoded : decodes_to h g r full stats.

(** C1, count conservation: when the trace decodes to a record of N call
    events ([N] fits an [int], as the length of a slice does), [Details]
    renders a view that holds the record and whose rows' counts add up
    to N. *)
Theorem count_conservation :
  Z.of_nat (length (RPCStats stats)) ≤ MaxInt →
  ∃ v, Details h g r = ExecuteTemplate "details" v
       ∧ Record_ v = Some stats
       ∧ sumZ (Count <$> AllStatsByCount v) = Z.of_nat (length (RPCStats stats)).
Proof.
  intros Hlen. eexists. split; [apply (Details_decoded g h r full stats decoded)|].
  split; [done|]. simpl.
  change sumZ with (@num_sum Z _). rewrite (rows_sum g g_ok). simpl.
  now apply aggregate_count.
Qed.

(** C5, cost conservation: the total costs of the rows add up to the
    costs of all call events of the record. *)
Theorem cost_conservation :
  ∃ v, Details h g r = ExecuteTemplate "details" v
       ∧ Record_ v = Some stats
       ∧ num_sum (Cost <$> AllStatsByCount v) = num_sum (RPCStat_Cost <$> RPCStats stats).
Proof.
  eexists. split; [apply (Details_decoded g h r full stats decoded)|].
  split; [done|]. simpl.
  rewrite (rows_sum g g_ok). simpl. apply aggregate_cost.
Qed.

(** C4, approximate total elapsed time: [Real] is the sum of the
    durations of all call events of the record, whatever their names,
    computed in [time.Duration]; it is the exact sum whenever that fits
    an [int64]. *)
Theorem approx_total_duration :
  ∃ v, Details h g r = ExecuteTemplate "details" v
       ∧ Record_ v = Some stats
       ∧ Real v = Duration_sum (RPCStat_Duration <$> RPCStats stats)
       ∧ (fits_int64 (sumZ (RPCStat_Duration <$> RPCStats stats)) →
          Real v = sumZ (RPCStat_Duration <$> RPCStats stats)).
Proof.
  eexists. split; [apply (Details_decoded g h r full stats decoded)|].
  split; [done|]. simpl. rewrite Duration_sum_wrap, aggregate_real.
  split; [done|]. intros Hfit. now apply wrap_small.
Qed.

(** C9, duration conservation: the total durations of the rows add up,
    in [time.Duration], to [Real], and both are the sum of the durations
    of all call events; the equalities are exact in [Z] when no event
    has a negative duration and the sum fits an [int64]. *)
Theorem duration_conservation :
  ∃ v, Details h g r = ExecuteTemplate "details" v
       ∧ Record_ v = Some stats
       ∧ Duration_sum (Duration <$> AllStatsByCount v) = Real v
       ∧ Real v = Duration_sum (RPCStat_Duration <$> RPCStats stats)
       ∧ (Forall (λ e, 0 ≤ RPCStat_Duration e) (RPCStats stats) →
          fits_int64 (sumZ (RPCStat_Duration <$> RPCStats stats)) →
          sumZ (Duration <$> AllStatsByCount v) = Real v
          ∧ Real v = sumZ (RPCStat_Duration <$> RPCStats stats)).
Proof.
  eexists. split; [apply (Details_decoded g h r full stats decoded)|].
  split; [done|]. simpl. rewrite !Duration_sum_wrap, aggregate_real.
  change sumZ with (@num_sum Z _). rewrite (rows_sum g g_ok). simpl.
  split; [apply aggregate_duration|]. split; [done|].
  intros Hpos Hfit. split.
  - rewrite (proj2 (aggregate_duration_exact _ Hpos (proj2 Hfit))).
    symmetry. now apply wrap_small.
  - now apply wrap_small.
Qed.
End conservation.

Lemma count_conservation_witness :
  ∃ v, Details scenario_host scenario_lang (details_request "xyz") = ExecuteTemplate "details" v
       ∧ Record_ v = Some scenario_stats
       ∧ sumZ (Count <$> AllStatsByCount v) = 3.
Proof.
  apply (count_conservation scenario_host scenario_lang (details_request "xyz")
           scenario_full scenario_stats).
  - apply run_Lang_OK.
  - exact scenario_decodes.
  - vm_compute. discriminate.
Defined.

Lemma cost_conservation_witness :
  ∃ v, Details scenario_host scenario_lang (details_request "xyz") = ExecuteTemplate "details" v
       ∧ Record_ v = Some scenario_stats
       ∧ num_sum (Cost <$> AllStatsByCount v) = 45.
Proof.
  exact (cost_conservation scenario_host scenario_lang (details_request "xyz")
           scenario_full scenario_stats (run_Lang_OK _ _ _) scenario_decodes).
Defined.

Lemma approx_total_duration_witness :
  ∃ v, Details scenario_host scenario_lang (details_request "xyz") = ExecuteTemplate "details" v
       ∧ Record_ v = Some scenario_stats
       ∧ Real v = 80000000.
Proof.
  destruct (approx_total_duration scenario_host scenario_lang (details_request "xyz")
              scenario_full scenario_stats scenario_decodes)
    as (v & Hv & Hrec & _ & Hexact).
  exists v. split; [exact Hv|]. split; [exact Hrec|].
  apply Hexact. vm_compute. split; [discriminate | reflexivity].
Defined.

Lemma duration_conservation_witness :
  ∃ v, Details scenario_host scenario_lang (details_request "xyz") = ExecuteTemplate "details" v
       ∧ Record_ v = Some scenario_stats
       ∧ sumZ (Duration <$> AllStatsByCount v) = Real v
       ∧ Real v = 80000000.
Proof.
  destruct (duration_conservation scenario_host scenario_lang (details_request "xyz")
              scenario_full scenario_stats (run_Lang_OK _ _ _) scenario_decodes)
    as (v & Hv & Hrec & _ & _ & Hexact).
  exists v. split; [exact Hv|]. split; [exact Hrec|].
  apply Hexact.
  - repeat constructor; vm_compute; discriminate.
  - vm_compute. split; [discriminate | reflexivity].
Defined.

(** ** Graceful degradation *)

(** C3, graceful degradation: when the cache has no entry for the request
    or the fetched bytes do not decode, [Details] neither fails nor
    panics: it executes the ["details"] template on the view that holds
    the application identifier and nothing else -- no record, no header,
    no rows, a zero duration. *)
Theorem graceful_degradation {C : Type} `{Numeric C} (h : Host) (g : Lang C) (r : Request) :
  trace_unavailable h g r →
  ∃ v, Details h g r = ExecuteTemplate "details" v
       ∧ Env v = {[ "APPLICATION_ID"%string := appengine_AppID h ]}
       ∧ Record_ v = None
       ∧ Header_ v = ∅
       ∧ AllStatsByCount v = []
       ∧ Real v = 0.
Proof.
  intros Hun. exists (empty_view h). split; [now apply Details_unavailable|done].
Qed.

Lemma graceful_degradation_witness :
  (∃ v, Details scenario_host scenario_lang (details_request "abc") = ExecuteTemplate "details" v
        ∧ Env v = {[ "APPLICATION_ID"%string := "app"%string ]}
        ∧ Record_ v = None ∧ Header_ v = ∅ ∧ AllStatsByCount v = [] ∧ Real v = 0)
  ∧ (∃ v, Details scenario_host scenario_lang (details_request "old") = ExecuteTemplate "details" v
        ∧ Env v = {[ "APPLICATION_ID"%string := "app"%string ]}
        ∧ Record_ v = None ∧ Header_ v = ∅ ∧ AllStatsByCount v = [] ∧ Real v = 0).
Proof.
  split.
  - apply (graceful_degradation scenario_host scenario_lang (details_request "abc")).
    vm_compute. exact I.
  - apply (graceful_degradation scenario_host scenario_lang (details_request "old")).
    vm_compute. now eexists.
Defined.

(** ** The ranking is a strict weak ordering *)

Lemma lex_StrictWeakOrder {A} (lt1 lt2 : A → A → bool) :
  StrictWeakOrder lt1 → StrictWeakOrder lt2 → StrictWeakOrder (lex lt1 lt2).
Proof.
  intros [I1 T1 N1] [I2 T2 N2]. split; unfold lex.
  - intros a. now rewrite I1, I2.
  - intros a b c Hab Hbc.
    destruct (lt1 a b) eqn:Eab.
    + destruct (lt1 b c) eqn:Ebc; [now rewrite (T1 a b c)|].
      destruct (lt1 c b) eqn:Ecb; [done|].
      destruct (lt1 a c) eqn:Eac; [done|].
      now rewrite (N1 a c b) in Eab.
    + destruct (lt1 b a) eqn:Eba; [done|].
      destruct (lt1 b c) eqn:Ebc.
      * destruct (lt1 a c) eqn:Eac; [done|].
        now rewrite (N1 b a c) in Ebc.
      * destruct (lt1 c b) eqn:Ecb; [done|].
        rewrite (N1 a b c), (N1 c b a) by done. now apply (T2 a b c).
  - intros a b c Hab Hbc.
    destruct (lt1 a b) eqn:Eab; [done|]. destruct (lt1 b c) eqn:Ebc; [done|].
    rewrite (N1 a b c) by done.
    destruct (lt1 c a) eqn:Eca; [done|].
    rewrite (N1 b c a) in Hab by done. rewrite (N1 c a b) in Hbc by done.
    now apply (N2 a b c).
Qed.

Lemma StrictWeakOrder_on {A B} (key : A → B) (lt : B → B → bool) :
  StrictWeakOrder lt → StrictWeakOrder (λ a b, lt (key a) (key b)).
Proof. intros [I T N]. split; eauto. Qed.

Lemma StrictWeakOrder_flip {A} (lt : A → A → bool) :
  StrictWeakOrder lt → StrictWeakOrder (λ a b, lt b a).
Proof. intros [I T N]. split; eauto. Qed.

Lemma Z_ltb_StrictWeakOrder : StrictWeakOrder Z.ltb.
Proof. split; intros; lia. Qed.

Lemma String_ltb_leb (s1 s2 : string) : String.ltb s1 s2 = negb (String.leb s2 s1).
Proof.
  unfold String.ltb, String.leb. rewrite (String.compare_antisym s2 s1).
  now destruct (String.compare s1 s2).
Qed.

Lemma String_ltb_StrictWeakOrder : StrictWeakOrder String.ltb.
Proof.
  assert (∀ s1 s2, String.ltb s1 s2 = false ↔ String.le s2 s1) as E.
  { intros s1 s2. rewrite String_ltb_leb. unfold String.le.
    destruct (String.leb s2 s1); simpl; split; (done || intros []). }
  split.
  - intros s. now apply E.
  - intros a b c Hab Hbc. apply not_false_iff_true. rewrite E. intros Hca.
    apply not_false_iff_true in Hab. apply Hab, E.
    destruct (total String.le b a) as [Hba|Hab']; [done|].
    apply not_false_iff_true in Hbc. destruct Hbc. apply E. now transitivity a.
  - intros a b c. rewrite !E. intros Hba Hcb. now transitivity b.
Qed.

Lemma String_ltb_connected (s1 s2 : string) :
  String.ltb s1 s2 = false → String.ltb s2 s1 = false → s1 = s2.
Proof.
  rewrite !String_ltb_leb, !negb_false_iff. intros H21 H12.
  now apply String.leb_antisym.
Qed.

#[export] Instance Z_NumericOrdLaws : NumericOrdLaws Z.
Proof. split; simpl; intros; lia. Qed.

(** [int64] with Go's wrapping [+] and its [<] meets what is assumed of a
    cost type. *)
Lemma int64_eq (a b : int64) : proj1_sig a = proj1_sig b → a = b.
Proof. apply (sig_eq_pi _). Qed.

Lemma int64_fits (a : int64) : fits_int64 (proj1_sig a).
Proof. destruct a as [z Hz]. exact (bool_decide_unpack _ Hz). Qed.

#[export] Instance int64_NumericLaws : NumericLaws int64.
Proof.
  split; intros; apply int64_eq; simpl; unfold wrap64.
  - now rewrite wrap_add_l, wrap_add_r, Z.add_assoc.
  - now rewrite Z.add_comm.
  - rewrite wrap_add_l. apply wrap_small; [done|]. apply int64_fits.
Qed.

#[export] Instance int64_NumericOrdLaws : NumericOrdLaws int64.
Proof.
  split; simpl.
  - intros a. lia.
  - intros a b c. lia.
  - intros a b Hab Hba. apply int64_eq. lia.
Qed.

Section ranking.
Context {C : Type} `{NumericOrdLaws C}.
Implicit Types (a b : StatByName C).

Lemma num_ltb_StrictWeakOrder : StrictWeakOrder (num_ltb (C:=C)).
Proof.
  split; [apply num_ltb_irrefl | apply num_ltb_trans |].
  intros a b c Hab Hbc.
  destruct (num_ltb a c) eqn:Hac; [|done].
  destruct (num_ltb b a) eqn:Hba.
  - destruct (num_ltb c b) eqn:Hcb.
    + pose proof (num_ltb_trans _ _ _ Hcb Hba) as Hca.
      pose proof (num_ltb_trans _ _ _ Hac Hca) as Haa.
      now rewrite num_ltb_irrefl in Haa.
    + rewrite (num_ltb_connected b c Hbc Hcb) in Hab. congruence.
  - rewrite (num_ltb_connected a b Hab Hba) in Hac. congruence.
Qed.

Lemma Less_lex a b :
  Less a b = lex (λ a b, num_ltb (Cost b) (Cost a))
                 (lex (λ a b, Count b <? Count a)
                      (λ a b, String.ltb (Name a) (Name b))) a b.
Proof. reflexivity. Qed.

Lemma Less_StrictWeakOrder : StrictWeakOrder (Less (C:=C)).
Proof.
  apply lex_StrictWeakOrder; [|apply lex_StrictWeakOrder].
  - apply (StrictWeakOrder_on Cost (λ x y, num_ltb y x)),
      StrictWeakOrder_flip, num_ltb_StrictWeakOrder.
  - apply (StrictWeakOrder_on Count (λ x y, y <? x)),
      StrictWeakOrder_flip, Z_ltb_StrictWeakOrder.
  - apply (StrictWeakOrder_on Name), String_ltb_StrictWeakOrder.
Qed.

(** Rows that [Less] does not tell apart have the same cost, count and
    name. *)
Lemma Less_connected a b :
  Less a b = false → Less b a = false →
  Cost a = Cost b ∧ Count a = Count b ∧ Name a = Name b.
Proof.
  unfold Less.
  destruct (num_ltb (Cost b) (Cost a)) eqn:E1; [done|].
  destruct (num_ltb (Cost a) (Cost b)) eqn:E2; [done|].
  destruct (Z.ltb_spec (Count b) (Count a)); [done|].
  destruct (Z.ltb_spec (Count a) (Count b)); [done|].
  intros Hab Hba. split; [now apply num_ltb_connected|]. split; [lia|].
  now apply String_ltb_connected.
Qed.

Lemma Less_ranks_before a b : Less a b = true ↔ ranks_before a b.
Proof.
  unfold Less, ranks_before.
  destruct (num_ltb (Cost b) (Cost a)) eqn:E1; [intuition|].
  destruct (num_ltb (Cost a) (Cost b)) eqn:E2.
  { split; [done|]. intros [?|[E _]]; [done|]. rewrite E, num_ltb_irrefl in E2. done. }
  pose proof (num_ltb_connected _ _ E2 E1) as Ecost.
  destruct (Z.ltb_spec (Count b) (Count a)); [intuition|].
  destruct (Z.ltb_spec (Count a) (Count b)).
  { split; [done|]. intros [?|[_ [?|[? _]]]]; [done|lia..]. }
  split.
  - intros Hn. right. split; [done|]. right. split; [lia|done].
  - intros [?|[_ [?|[_ ?]]]]; [done|lia|done].
Qed.
End ranking.

(** ** Deterministic order of the rows *)

Lemma StronglySorted_lookup {A} (R : relation A) (l : list A) (i j : nat) (a b : A) :
  StronglySorted R l → (i < j)%nat → l !! i = Some a → l !! j = Some b → R a b.
Proof.
  intros Hl. revert i j. induction Hl as [|x l _ IH Hx]; intros i j Hij Hi Hj; [done|].
  destruct j as [|j]; [lia|]. destruct i as [|i]; simpl in *.
  - injection Hi as <-. rewrite Forall_forall in Hx.
    apply Hx. eapply list_elem_of_lookup_2. exact Hj.
  - apply (IH i j); [lia|done..].
Qed.

Lemma StronglySorted_ext {A} (R1 R2 : relation A) (l : list A) :
  (∀ a b, R1 a b → R2 a b) → StronglySorted R1 l → StronglySorted R2 l.
Proof.
  intros HR. induction 1 as [|x l _ IH Hx]; constructor; [done|].
  eapply Forall_impl; [exact Hx | auto].
Qed.

Lemma StrictWeakOrder_ext {A} (less1 less2 : A → A → bool) :
  (∀ a b, less1 a b = less2 a b) → StrictWeakOrder less2 → StrictWeakOrder less1.
Proof.
  intros E [I T N]. split; intros *; rewrite !E; eauto.
Qed.

Section ordering.
Context {C : Type} `{Numeric C} `{NumericOrdLaws C}.
Implicit Types (g : Lang C) (a : Acc C).

(** With the ranking for [Less], the rows come out in ascending order of
    the ranking. *)
Lemma rows_ascending g a :
  LangOK g → (∀ x y, StatsByName_Less g x y = Less x y) →
  ascending Less (rows g a).
Proof.
  intros g_ok HLess.
  apply (StronglySorted_ext (not_after (StatsByName_Less g))).
  { unfold not_after. intros x y. now rewrite HLess. }
  apply (sort_Sort_ascending g g_ok).
  apply (StrictWeakOrder_ext _ Less HLess), Less_StrictWeakOrder.
Qed.

(** The order does not depend on how [range] and [sort.Sort] go about
    their work. *)
Lemma rows_deterministic g g' a :
  LangOK g → (∀ x y, StatsByName_Less g x y = Less x y) →
  LangOK g' → (∀ x y, StatsByName_Less g' x y = Less x y) →
  rows g a = rows g' a.
Proof.
  intros g_ok HLess g_ok' HLess'.
  apply (StronglySorted_unique_strong (not_after Less)).
  - intros x y Hx Hy Hxy Hyx.
    destruct (Less_connected y x Hxy Hyx) as (_ & _ & Hname).
    apply (rows_elem_of g g_ok) in Hx as (k1 & v1 & Hk1 & ->).
    apply (rows_elem_of g' g_ok') in Hy as (k2 & v2 & Hk2 & ->).
    simpl in Hname. subst k2. congruence.
  - now apply rows_ascending.
  - now apply rows_ascending.
  - now rewrite (rows_Permutation g g_ok), (rows_Permutation g' g_ok').
Qed.

(** With the ranking for [Less], every row ranks strictly before every
    later one. *)
Lemma rows_ranked g a (i j : nat) (x y : StatByName C) :
  LangOK g → (∀ x y, StatsByName_Less g x y = Less x y) →
  (i < j)%nat → rows g a !! i = Some x → rows g a !! j = Some y →
  ranks_before x y.
Proof.
  intros g_ok HLess Hij Hi Hj. apply Less_ranks_before.
  pose proof (StronglySorted_lookup _ _ i j x y
                (rows_ascending g _ g_ok HLess) Hij Hi Hj) as Hyx.
  unfold not_after in Hyx.
  destruct (Less x y) eqn:Hxy; [done|]. exfalso.
  destruct (Less_connected x y Hxy Hyx) as (_ & _ & Hname).
  assert (i = j) as ->; [|lia].
  apply (NoDup_lookup (Name <$> rows g a) i j (Name x)).
  - apply (rows_NoDup_Name g g_ok).
  - now rewrite list_lookup_fmap, Hi.
  - now rewrite list_lookup_fmap, Hj, Hname.
Qed.
End ordering.

(** ** [strconv.Atoi] *)

Example Itoa_examples :
  Itoa 0 = "0"%string ∧ Itoa 42 = "42"%string ∧ Itoa (-7) = "-7"%string
  ∧ Itoa MaxInt = "9223372036854775807"%string
  ∧ Itoa MinInt = "-9223372036854775808"%string.
Proof. repeat split. Qed.

Example Atoi_examples :
  Atoi "12" = (12, None) ∧ Atoi "-12" = (-12, None) ∧ Atoi "+12" = (12, None)
  ∧ Atoi "" = (0, Some ErrSyntax) ∧ Atoi "-" = (0, Some ErrSyntax)
  ∧ Atoi "12a" = (0, Some ErrSyntax) ∧ Atoi "1_000" = (0, Some ErrSyntax)
  ∧ Atoi "9223372036854775807" = (MaxInt, None)
  ∧ Atoi "9223372036854775808" = (MaxInt, Some ErrRange)
  ∧ Atoi "-9223372036854775808" = (MinInt, None)
  ∧ Atoi "-9223372036854775809" = (MinInt, Some ErrRange)
  ∧ Atoi "99999999999999999999x" = (MaxInt, Some ErrRange).
Proof. repeat split. Qed.

Lemma leading_value_ge s : ∀ n, 0 ≤ n → n ≤ leading_value s n.
Proof.
  induction s as [|c s IH]; intros n Hn; simpl; [lia|].
  unfold digit_of. destruct (_ && _) eqn:Hc; [|lia].
  apply andb_true_iff in Hc as [?%Z.leb_le ?%Z.leb_le].
  etrans; [|apply IH]; lia.
Qed.

Lemma digit_of_range c d : digit_of c = Some d → 0 ≤ d ≤ 9.
Proof.
  unfold digit_of. destruct (_ && _) eqn:Hc; [|done].
  apply andb_true_iff in Hc as [?%Z.leb_le ?%Z.leb_le]. intros [= <-]. lia.
Qed.

(** The loop of [ParseUint], in closed form. *)
Lemma ParseUint_loop_closed_form s : ∀ n,
  0 ≤ n < 2 ^ 64 →
  ParseUint_loop 64 s n =
    if 2 ^ 64 <=? leading_value s n then (2 ^ 64 - 1, Some ErrRange)
    else if all_digits s then (leading_value s n, None)
    else (0, Some ErrSyntax).
Proof.
  induction s as [|c s IH]; intros n Hn; simpl.
  - destruct (Z.leb_spec (2 ^ 64) n); [lia|done].
  - unfold is_digit. destruct (digit_of c) as [d|] eqn:Hd; simpl.
    2:{ destruct (Z.leb_spec (2 ^ 64) n); [lia|done]. }
    pose proof (digit_of_range c d Hd) as Hrange.
    pose proof (leading_value_ge s (n * 10 + d)) as Hge.
    change (maxUint64 / 10 + 1) with 1844674407370955162.
    destruct (Z.leb_spec 1844674407370955162 n).
    { destruct (Z.leb_spec (2 ^ 64) (leading_value s (n * 10 + d))); [done|lia]. }
    destruct (Z.leb_spec (2 ^ 64) (n * 10 + d)) as [Hover|Hin].
    + assert ((n * 10 + d) mod 2 ^ 64 = n * 10 + d - 2 ^ 64) as ->.
      { symmetry. apply (Z.mod_unique _ _ 1); lia. }
      destruct (Z.ltb_spec (n * 10 + d - 2 ^ 64) (n * 10)); [|lia]. simpl.
      destruct (Z.leb_spec (2 ^ 64) (leading_value s (n * 10 + d))); [done|lia].
    + rewrite Z.mod_small by lia.
      destruct (Z.ltb_spec (n * 10 + d) (n * 10)); [lia|].
      destruct (Z.ltb_spec (2 ^ 64 - 1) (n * 10 + d)); [lia|]. simpl.
      apply IH. lia.
Qed.

Lemma ParseUint_closed_form (body : string) :
  ParseUint body 0 =
    match body with
    | EmptyString => (0, Some ErrSyntax)
    | _ =>
      if 2 ^ 64 <=? leading_value body 0 then (2 ^ 64 - 1, Some ErrRange)
      else if all_digits body then (leading_value body 0, None)
      else (0, Some ErrSyntax)
    end.
Proof.
  destruct body as [|c body]; [done|].
  unfold ParseUint. change (if 0 =? 0 then IntSize else 0) with 64.
  now apply ParseUint_loop_closed_form.
Qed.

Lemma ParseInt_unsigned_part c s' :
  (if Ascii.eqb c "+" || Ascii.eqb c "-" then s' else String c s') = unsigned_part (String c s').
Proof. reflexivity. Qed.

(** [Atoi] computes its closed form. *)
Lemma Atoi_closed s : Atoi s = Atoi_closed_form s.
Proof.
  destruct s as [|c s']; [done|].
  unfold Atoi, ParseInt, Atoi_closed_form. rewrite ParseInt_unsigned_part.
  change (negative (String c s')) with (Ascii.eqb c "-").
  change (if 0 =? 0 then IntSize else 0) with 64. change (2 ^ (64 - 1)) with (2 ^ 63).
  set (body := unsigned_part (String c s')).
  rewrite (ParseUint_closed_form body).
  pose proof (leading_value_ge body 0 ltac:(lia)) as Hge.
  set (un := leading_value body 0) in *.
  destruct body as [|c0 body0] eqn:Hbody; [done|]. rewrite <- Hbody. clearbody body.
  assert (MaxInt = 2 ^ 63 - 1) as EMax by done.
  assert (MinInt = - 2 ^ 63) as EMin by done.
  assert (∀ x, - 2 ^ 63 ≤ x < 2 ^ 63 → int_wrap x = x) as Hint.
  { intros x Hx. now apply wrap_small. }
  assert (∀ x, - 2 ^ 63 ≤ x < 2 ^ 63 → wrap64 x = x) as H64.
  { intros x Hx. now apply wrap_small. }
  destruct (Z.leb_spec (2 ^ 64) un) as [Hover|Hin].
  { destruct (Ascii.eqb c "-"); simpl.
    - destruct (Z.ltb_spec (2 ^ 63) (2 ^ 64 - 1)); [|lia].
      rewrite EMin. f_equal; try (apply Hint; lia).
    - destruct (Z.leb_spec (2 ^ 63) (2 ^ 64 - 1)); [|lia].
      rewrite EMax. f_equal; try (apply Hint; lia). }
  destruct (all_digits body); simpl; [|done].
  destruct (Ascii.eqb c "-"); simpl.
  - destruct (Z.ltb_spec (2 ^ 63) un); [rewrite EMin; f_equal; try (apply Hint; lia)|].
    f_equal. destruct (decide (un = 2 ^ 63)) as [->|Hne]; [done|].
    rewrite (H64 un) by lia. rewrite (H64 (- un)) by lia. apply Hint. lia.
  - destruct (Z.leb_spec (2 ^ 63) un); [rewrite EMax; f_equal; try (apply Hint; lia)|].
    f_equal. rewrite (H64 un) by lia. apply Hint. lia.
Qed.

(** [Atoi] reads back what [Itoa] writes. *)

Lemma digit_of_digit_char d : 0 ≤ d ≤ 9 → digit_of (digit_char d) = Some d.
Proof.
  intros Hd.
  assert (d = 0 ∨ d = 1 ∨ d = 2 ∨ d = 3 ∨ d = 4 ∨ d = 5 ∨ d = 6 ∨ d = 7 ∨ d = 8 ∨ d = 9)
    as Hcases by lia.
  repeat destruct Hcases as [->|Hcases]; try reflexivity. now subst.
Qed.

Lemma is_digit_not_sign c : is_digit c = true → Ascii.eqb c "+" || Ascii.eqb c "-" = false.
Proof.
  intros Hc.
  destruct (Ascii.eqb_spec c "+") as [->|_]; [done|].
  destruct (Ascii.eqb_spec c "-") as [->|_]; done.
Qed.

Lemma uint_digits_spec fuel : ∀ n acc,
  0 ≤ n < 10 ^ (Z.of_nat fuel + 1) →
  all_digits acc = true →
  all_digits (uint_digits fuel n acc) = true
  ∧ (∃ c s, uint_digits fuel n acc = String c s)
  ∧ (∃ len, 0 ≤ len ∧
       ∀ m, leading_value (uint_digits fuel n acc) m = leading_value acc (m * 10 ^ len + n)).
Proof.
  assert (∀ n acc, 0 ≤ n → all_digits acc = true →
            all_digits (String (digit_char (n mod 10)) acc) = true
            ∧ ∀ m, leading_value (String (digit_char (n mod 10)) acc) m
                   = leading_value acc (m * 10 + n mod 10)) as Hone.
  { intros n acc Hn Hacc. simpl. unfold is_digit.
    rewrite digit_of_digit_char by (pose proof (Z.mod_pos_bound n 10); lia).
    now rewrite Hacc. }
  induction fuel as [|fuel IH]; intros n acc Hn Hacc.
  - destruct (Hone n acc) as [Hall Hval]; [lia|done|].
    change (uint_digits 0 n acc) with (String (digit_char (n mod 10)) acc).
    split; [done|]. split; [eauto|]. exists 1. split; [lia|]. intros m.
    rewrite Hval, Z.mod_small by (simpl in Hn; lia). f_equal; lia.
  - destruct (Hone n acc) as [Hall Hval]; [lia|done|].
    change (uint_digits (S fuel) n acc)
      with (if n <? 10 then String (digit_char (n mod 10)) acc
            else uint_digits fuel (n / 10) (String (digit_char (n mod 10)) acc)).
    destruct (Z.ltb_spec n 10) as [Hlt|Hge].
    + split; [done|]. split; [eauto|]. exists 1. split; [lia|]. intros m.
      rewrite Hval, Z.mod_small by lia. f_equal; lia.
    + destruct (IH (n / 10) (String (digit_char (n mod 10)) acc))
        as (Hall' & Hcons & len & Hlen & Hval'); [|done|].
      { split; [apply Z.div_pos; lia|].
        apply Z.div_lt_upper_bound; [lia|].
        replace (Z.of_nat (S fuel) + 1) with (Z.succ (Z.of_nat fuel + 1)) in Hn by lia.
        rewrite Z.pow_succ_r in Hn by lia. lia. }
      split; [done|]. split; [done|]. exists (len + 1). split; [lia|]. intros m.
      rewrite Hval', Hval. f_equal.
      rewrite Z.pow_add_r by lia. pose proof (Z.div_mod n 10). lia.
Qed.

Lemma Atoi_Itoa k : MinInt ≤ k ≤ MaxInt → Atoi (Itoa k) = (k, None).
Proof.
  intros Hk. rewrite Atoi_closed. unfold Itoa.
  assert (MaxInt = 2 ^ 63 - 1) as EMax by done.
  assert (MinInt = - 2 ^ 63) as EMin by done.
  destruct (Z.ltb_spec k 0) as [Hneg|Hpos].
  - destruct (uint_digits_spec 19 (- k) EmptyString)
      as (Hall & (c & s & Hs) & len & Hlen & Hval); [simpl; lia|done|].
    set (body := uint_digits 19 (- k) EmptyString) in *. clearbody body.
    unfold Atoi_closed_form.
    change (unsigned_part (String "-" body)) with body.
    change (negative (String "-" body)) with true.
    destruct body as [|c' s']; [done|].
    rewrite Hall, Hval. simpl leading_value.
    destruct (Z.leb_spec (2 ^ 64) (0 * 10 ^ len + - k)); [lia|]. simpl.
    destruct (Z.ltb_spec (2 ^ 63) (0 * 10 ^ len + - k)); [lia|]. f_equal; lia.
  - destruct (uint_digits_spec 19 k EmptyString)
      as (Hall & (c & s & Hs) & len & Hlen & Hval); [simpl; lia|done|].
    set (body := uint_digits 19 k EmptyString) in *. clearbody body.
    assert (unsigned_part body = body ∧ negative body = false) as [Hu Hn].
    { subst body. simpl in Hall. apply andb_true_iff in Hall as [Hc _].
      pose proof (is_digit_not_sign c Hc) as Hsign. unfold unsigned_part, negative.
      rewrite Hsign. now apply orb_false_iff in Hsign as [_ ->]. }
    unfold Atoi_closed_form. rewrite Hu, Hn.
    destruct body as [|c' s']; [done|].
    rewrite Hall, Hval. simpl leading_value.
    destruct (Z.leb_spec (2 ^ 64) (0 * 10 ^ len + k)); [lia|]. simpl.
    destruct (Z.leb_spec (2 ^ 63) (0 * 10 ^ len + k)); [lia|]. f_equal; lia.
Qed.

(** ** Splitting into lines *)

Example strings_Split_examples :
  strings_Split "" newline = [""%string]
  ∧ strings_Split "a" newline = ["a"%string]
  ∧ strings_Split (String "a" (String newline "b")) newline = ["a"; "b"]%string
  ∧ strings_Split (String "a" (String newline "")) newline = ["a"; ""]%string
  ∧ strings_Split (String newline (String newline "")) newline = [""; ""; ""]%string.
Proof. repeat split. Qed.

Lemma strings_Split_length s sep :
  sep = newline → length (strings_Split s sep) = S (count_newlines s).
Proof.
  intros ->. induction s as [|c s IH]; simpl; [done|].
  destruct (Ascii.eqb c newline); simpl; [now rewrite IH|].
  destruct (strings_Split s newline); simpl in *; done.
Qed.

Lemma strings_Split_nonempty s sep : strings_Split s sep ≠ [].
Proof.
  destruct s as [|c s]; simpl; [done|].
  destruct (Ascii.eqb c sep); [done|]. now destruct (strings_Split s sep).
Qed.

(** A final newline yields a final empty line. *)
Lemma strings_Split_final_newline s :
  strings_Split (String.append s (String newline EmptyString)) newline
  = strings_Split s newline ++ [EmptyString].
Proof.
  induction s as [|c s IH]; [done|].
  change (String.append (String c s) (String newline EmptyString))
    with (String c (String.append s (String newline EmptyString))).
  simpl. rewrite IH.
  destruct (Ascii.eqb c newline); [done|].
  pose proof (strings_Split_nonempty s newline).
  now destruct (strings_Split s newline).
Qed.

(** ** The line map built by [File] *)

Lemma int_wrap_small x : MinInt ≤ x ≤ MaxInt → int_wrap x = x.
Proof. intros Hx. apply wrap_small; [done|]. unfold MinInt, MaxInt, IntSize in *. lia. Qed.

Lemma MinInt_neg : MinInt < 0.
Proof. done. Qed.

Lemma range_lines_lookup_other lines : ∀ k fp i,
  0 ≤ k → k + Z.of_nat (length lines) ≤ MaxInt →
  ¬ (k < i ≤ k + Z.of_nat (length lines)) →
  range_lines k lines fp !! i = fp !! i.
Proof.
  pose proof MinInt_neg.
  induction lines as [|v lines IH]; intros k fp i Hk Hlen Hi; [done|].
  simpl in *. rewrite IH by lia. rewrite int_wrap_small by lia.
  apply lookup_insert_ne. lia.
Qed.

Lemma range_lines_lookup lines : ∀ k fp (j : nat),
  0 ≤ k → k + Z.of_nat (length lines) ≤ MaxInt →
  (j < length lines)%nat →
  range_lines k lines fp !! (k + Z.of_nat j + 1) = lines !! j.
Proof.
  pose proof MinInt_neg.
  induction lines as [|v lines IH]; intros k fp j Hk Hlen Hj; simpl in *; [lia|].
  destruct j as [|j].
  - replace (k + Z.of_nat 0 + 1) with (k + 1) by lia.
    rewrite range_lines_lookup_other by lia. rewrite int_wrap_small by lia.
    apply lookup_insert_eq.
  - replace (k + Z.of_nat (S j) + 1) with (k + 1 + Z.of_nat j + 1) by lia.
    apply IH; lia.
Qed.

Lemma range_lines_size lines : ∀ k fp,
  0 ≤ k → k + Z.of_nat (length lines) ≤ MaxInt →
  (∀ i, k < i → fp !! i = None) →
  size (range_lines k lines fp) = (size fp + length lines)%nat.
Proof.
  pose proof MinInt_neg.
  induction lines as [|v lines IH]; intros k fp Hk Hlen Hfp; simpl in *; [lia|].
  rewrite IH; [|lia|lia|].
  - rewrite int_wrap_small by lia. rewrite map_size_insert_None by (apply Hfp; lia). lia.
  - intros i Hi. rewrite int_wrap_small by lia.
    rewrite lookup_insert_ne by lia. apply Hfp. lia.
Qed.

(** The map built from [L] lines has exactly the keys 1 to [L], each
    mapped to its line. *)
Lemma range_lines_spec lines :
  Z.of_nat (length lines) ≤ MaxInt →
  let fp := range_lines 0 lines ∅ in
  size fp = length lines
  ∧ (∀ i, is_Some (fp !! i) ↔ 1 ≤ i ≤ Z.of_nat (length lines))
  ∧ (∀ j : nat, (j < length lines)%nat → fp !! (Z.of_nat j + 1) = lines !! j).
Proof.
  intros Hlen fp. subst fp. split; [|split].
  - rewrite range_lines_size; [now rewrite map_size_empty|lia|lia|].
    intros i _. apply lookup_empty.
  - intros i. destruct (decide (0 < i ≤ 0 + Z.of_nat (length lines))) as [Hi|Hi].
    + replace i with (0 + Z.of_nat (Z.to_nat (i - 1)) + 1) at 1 by lia.
      rewrite range_lines_lookup by lia.
      split; [lia|]. intros _. apply lookup_lt_is_Some. lia.
    + rewrite range_lines_lookup_other by lia. rewrite lookup_empty.
      split; [now intros [? ?]|lia].
  - intros j Hj. now rewrite <- (range_lines_lookup lines 0 ∅ j) by lia.
Qed.

(** ** [File] *)

(** What [File] renders when the file can be read. *)
Lemma File_served h r f :
  ioutil_ReadFile h (Values_Get (URL_Query r) "f") = inl f →
  File h r = ExecuteTemplate "file"
    {| FEnv := {[ "APPLICATION_ID"%string := appengine_AppID h ]};
       Filename := Values_Get (URL_Query r) "f";
       Lineno := (Atoi (Values_Get (URL_Query r) "n")).1;
       Fp := range_lines 0 (strings_Split f newline) ∅ |}.
Proof. intros Hf. unfold File. now rewrite Hf. Qed.

(** C6, source mapping correctness: for a readable file, whose lines are
    the [L] pieces of its content between newlines ([L] fits an [int]),
    and a requested line number [k] (an [int], passed in decimal), [File]
    renders a view whose line map has exactly [L] entries, under the keys
    1 to [L], key [j + 1] holding the line of index [j], and whose
    highlight line is [k], whether or not [k] exceeds [L]. *)
Theorem source_mapping (h : Host) (r : Request) (f : string) (k : Z) :
  ioutil_ReadFile h (Values_Get (URL_Query r) "f") = inl f →
  Z.of_nat (length (strings_Split f newline)) ≤ MaxInt →
  MinInt ≤ k ≤ MaxInt →
  Values_Get (URL_Query r) "n" = Itoa k →
  ∃ v, File h r = ExecuteTemplate "file" v
       ∧ Filename v = Values_Get (URL_Query r) "f"
       ∧ size (Fp v) = length (strings_Split f newline)
       ∧ (∀ i, is_Some (Fp v !! i) ↔ 1 ≤ i ≤ Z.of_nat (length (strings_Split f newline)))
       ∧ (∀ j : nat, (j < length (strings_Split f newline))%nat →
                     Fp v !! (Z.of_nat j + 1) = strings_Split f newline !! j)
       ∧ Lineno v = k.
Proof.
  intros Hf Hlen Hk Hn. eexists. split; [exact (File_served h r f Hf)|]. simpl.
  destruct (range_lines_spec _ Hlen) as (Hsize & Hkeys & Hlines).
  rewrite Hn, Atoi_Itoa by done. done.
Qed.

Lemma source_mapping_witness :
  ∃ v, File scenario_host (file_request "main.go" "10") = ExecuteTemplate "file" v
       ∧ Filename v = "main.go"%string
       ∧ size (Fp v) = 3%nat
       ∧ (∀ i, is_Some (Fp v !! i) ↔ 1 ≤ i ≤ 3)
       ∧ (∀ j : nat, (j < 3)%nat →
                     Fp v !! (Z.of_nat j + 1)
                     = ["package main"; "func main() {}"; ""]%string !! j)
       ∧ Lineno v = 10.
Proof.
  assert (Z.of_nat (length (strings_Split scenario_source newline)) ≤ MaxInt) as Hlen
    by (vm_compute; discriminate).
  assert (MinInt ≤ 10 ≤ MaxInt) as Hk by (vm_compute; split; discriminate).
  exact (source_mapping scenario_host (file_request "main.go" "10") scenario_source 10
           eq_refl Hlen Hk eq_refl).
Defined.

(** C7, hard failure on unreadable source: when the file cannot be read,
    [File] replies with [http.Error], status 500 and the message of the
    error, and executes no template -- whereas [Details], when the trace
    is unavailable, executes its template on the empty view. *)
Theorem unreadable_source_fails (h : Host) (r : Request) (err : error) :
  ioutil_ReadFile h (Values_Get (URL_Query r) "f") = inr err →
  File h r = http_Error (Error err) StatusInternalServerError
  ∧ (∀ name v, File h r ≠ ExecuteTemplate name v)
  ∧ (∀ (C : Type) (HC : Numeric C) (g : Lang C) (r' : Request),
        trace_unavailable h g r' →
        Details h g r' = ExecuteTemplate "details" (empty_view h)).
Proof.
  intros Hf. assert (File h r = http_Error (Error err) StatusInternalServerError) as E.
  { unfold File. now rewrite Hf. }
  split; [done|]. split; [now rewrite E|].
  intros C HC g r'. apply Details_unavailable.
Qed.

Lemma unreadable_source_fails_witness :
  File scenario_host (file_request "/no/such/file" "10")
  = http_Error "open: no such file or directory" 500
  ∧ (∀ name v, File scenario_host (file_request "/no/such/file" "10") ≠ ExecuteTemplate name v)
  ∧ (∀ (C : Type) (HC : Numeric C) (g : Lang C) (r' : Request),
        trace_unavailable scenario_host g r' →
        Details scenario_host g r' = ExecuteTemplate "details" (empty_view scenario_host)).
Proof.
  apply (unreadable_source_fails scenario_host (file_request "/no/such/file" "10")
           (errors_New "open: no such file or directory")).
  reflexivity.
Defined.

(** C10, newline-split cardinality: for a readable file with [n] newline
    bytes ([n + 1] fits an [int]) the line map has exactly [n + 1]
    entries, under the keys 1 to [n + 1]; when the content ends in a
    newline the entry of key [n + 1] is the empty string; an empty file
    yields the map of 1 to the empty string; the map is never empty. *)
Theorem newline_split_cardinality (h : Host) (r : Request) (f : string) :
  ioutil_ReadFile h (Values_Get (URL_Query r) "f") = inl f →
  Z.of_nat (S (count_newlines f)) ≤ MaxInt →
  ∃ v, File h r = ExecuteTemplate "file" v
       ∧ size (Fp v) = S (count_newlines f)
       ∧ (∀ i, is_Some (Fp v !! i) ↔ 1 ≤ i ≤ Z.of_nat (count_newlines f) + 1)
       ∧ (∀ f0, f = String.append f0 (String newline EmptyString) →
                Fp v !! (Z.of_nat (count_newlines f) + 1) = Some EmptyString)
       ∧ (f = EmptyString → Fp v = {[ 1 := EmptyString ]})
       ∧ Fp v ≠ ∅.
Proof.
  intros Hf Hlen. eexists. split; [exact (File_served h r f Hf)|]. simpl.
  pose proof (strings_Split_length f newline eq_refl) as HL.
  destruct (range_lines_spec (strings_Split f newline)) as (Hsize & Hkeys & Hlines);
    [rewrite HL; lia|].
  rewrite HL in *. split; [done|]. split; [intros i; rewrite Hkeys; lia|].
  split; [|split].
  - intros f0 ->. rewrite Hlines by lia.
    rewrite strings_Split_final_newline in HL |- *.
    rewrite length_app, (strings_Split_length f0 newline eq_refl) in HL. simpl in HL.
    replace (count_newlines (String.append f0 (String newline EmptyString)))
      with (length (strings_Split f0 newline))
      by (rewrite (strings_Split_length f0 newline eq_refl); lia).
    now rewrite lookup_app_r, Nat.sub_diag by lia.
  - now intros ->.
  - intros E. rewrite E, map_size_empty in Hsize. done.
Qed.

Lemma newline_split_cardinality_witness :
  ∃ v, File scenario_host (file_request "main.go" "10") = ExecuteTemplate "file" v
       ∧ size (Fp v) = 3%nat
       ∧ (∀ i, is_Some (Fp v !! i) ↔ 1 ≤ i ≤ 2 + 1)
       ∧ (∀ f0, scenario_source = String.append f0 (String newline EmptyString) →
                Fp v !! (2 + 1) = Some EmptyString)
       ∧ (scenario_source = EmptyString → Fp v = {[ 1 := EmptyString ]})
       ∧ Fp v ≠ ∅.
Proof.
  assert (Z.of_nat (S (count_newlines scenario_source)) ≤ MaxInt) as Hlen
    by (vm_compute; discriminate).
  exact (newline_split_cardinality scenario_host (file_request "main.go" "10")
           scenario_source eq_refl Hlen).
Defined.

(** ** Line numbers that [Atoi] rejects *)

(** A string that is not a decimal integer is rejected by [Atoi]: with a
    range error when the digits it starts with amount to [2 ^ 64] or
    more, with a syntax error otherwise. *)
Lemma Atoi_not_decimal n :
  is_decimal n = false →
  (Atoi n).2 = Some (if 2 ^ 64 <=? leading_value (unsigned_part n) 0
                     then ErrRange else ErrSyntax).
Proof.
  rewrite Atoi_closed. unfold is_decimal, Atoi_closed_form.
  destruct (unsigned_part n) as [|c body] eqn:Hbody; [done|]. intros ->.
  now destruct (_ <=? _).
Qed.

(** The value that comes with an error. *)
Lemma Atoi_rejected n err :
  (Atoi n).2 = Some err →
  (Atoi n).1 = match err with
               | ErrSyntax => 0
               | ErrRange => if negative n then MinInt else MaxInt
               end.
Proof.
  rewrite Atoi_closed. unfold Atoi_closed_form.
  destruct (unsigned_part n) as [|c body]; [now intros [= <-]|].
  destruct (_ <=? _); [now intros [= <-]|].
  destruct (negb _); [now intros [= <-]|].
  destruct (negative n); destruct (_ : bool); simpl; (done || now intros [= <-]).
Qed.

(** C8, at a line number that is not a decimal integer: the file is
    served, and the line number is [MaxInt], not 0. *)
Lemma malformed_line_number_counterexample :
  let r := file_request "main.go" "99999999999999999999x" in
  is_decimal (Values_Get (URL_Query r) "n") = false
  ∧ ioutil_ReadFile scenario_host (Values_Get (URL_Query r) "f") = inl scenario_source
  ∧ (∃ v, File scenario_host r = ExecuteTemplate "file" v ∧ Lineno v = MaxInt)
  ∧ ¬ malformed_line_number_is_zero.
Proof.
  split; [reflexivity|]. split; [reflexivity|]. split.
  - eexists. split; reflexivity.
  - intros Hclaim.
    destruct (Hclaim scenario_host (file_request "main.go" "99999999999999999999x")
                scenario_source eq_refl eq_refl) as (v & Hv & Hzero).
    vm_compute in Hv. injection Hv as <-. discriminate Hzero.
Qed.

(** C8, malformed line-number tolerance, as the code has it: whatever the
    line-number parameter, a readable file is served, with the value
    [Atoi] returns for line number.  For a parameter that [Atoi] rejects
    that value is 0 when the error is one of syntax, and the bound of
    [int] on the side of the sign when it is one of range.  A parameter
    that is not a decimal integer is rejected, with a range error when the
    digits it starts with amount to [2 ^ 64] or more and with a syntax
    error otherwise; an absent or empty parameter gives line number 0. *)
Theorem malformed_line_number (h : Host) (r : Request) (f : string) :
  ioutil_ReadFile h (Values_Get (URL_Query r) "f") = inl f →
  let n := Values_Get (URL_Query r) "n" in
  ∃ v, File h r = ExecuteTemplate "file" v
       ∧ (∀ err, (Atoi n).2 = Some err →
                 Lineno v = match err with
                            | ErrSyntax => 0
                            | ErrRange => if negative n then MinInt else MaxInt
                            end)
       ∧ (is_decimal n = false →
          Lineno v = if 2 ^ 64 <=? leading_value (unsigned_part n) 0
                     then (if negative n then MinInt else MaxInt)
                     else 0)
       ∧ (URL_Query r !! "n"%string = None ∨ n = EmptyString → Lineno v = 0).
Proof.
  intros Hf n. eexists. split; [exact (File_served h r f Hf)|]. simpl. fold n.
  split; [apply Atoi_rejected|]. split.
  - intros Hn. rewrite (Atoi_rejected n _ (Atoi_not_decimal n Hn)).
    now destruct (_ <=? _).
  - intros [Habsent|Hempty].
    + subst n. unfold Values_Get. now rewrite Habsent.
    + now rewrite Hempty.
Qed.

Lemma malformed_line_number_witness :
  (∃ v, File scenario_host (file_request "main.go" "12a") = ExecuteTemplate "file" v
        ∧ Lineno v = 0)
  ∧ (∃ v, File scenario_host (file_request "main.go" "") = ExecuteTemplate "file" v
          ∧ Lineno v = 0)
  ∧ (∃ v, File scenario_host (file_request "main.go" "-99999999999999999999")
          = ExecuteTemplate "file" v
          ∧ Lineno v = MinInt).
Proof.
  split; [|split].
  - destruct (malformed_line_number scenario_host (file_request "main.go" "12a")
                scenario_source eq_refl) as (v & Hv & _ & Hnd & _).
    exists v. split; [exact Hv | exact (Hnd eq_refl)].
  - destruct (malformed_line_number scenario_host (file_request "main.go" "")
                scenario_source eq_refl) as (v & Hv & _ & _ & Hempty).
    exists v. split; [exact Hv | apply Hempty; right; reflexivity].
  - destruct (malformed_line_number scenario_host
                (file_request "main.go" "-99999999999999999999")
                scenario_source eq_refl) as (v & Hv & Herr & _ & _).
    exists v. split; [exact Hv | exact (Herr ErrRange eq_refl)].
Defined.

(** ** The scenarios, run *)

Example Details_scenario :
  Details scenario_host scenario_lang (details_request "xyz")
  = ExecuteTemplate "details"
      {| Env := {[ "APPLICATION_ID"%string := "app"%string ]};
         Record_ := Some scenario_stats;
         Header_ := {[ "Accept"%string := [ "*/*"%string ] ]};
         AllStatsByCount :=
           [ {| Name := "svcA.Get"; Count := 2; Cost := 25; Duration := 30000000 |};
             {| Name := "svcB.Fetch"; Count := 1; Cost := 20; Duration := 50000000 |} ];
         Real := 80000000 |}.
Proof. vm_compute. reflexivity. Qed.

Example Details_scenario_backwards :
  Details scenario_host (run_Lang scenario_decode Less true) (details_request "xyz")
  = Details scenario_host scenario_lang (details_request "xyz").
Proof. vm_compute. reflexivity. Qed.

Example Details_tie :
  AllStatsByCount <$> rendered (Details scenario_host
                                  (run_Lang (decode_to (Some tie_calls)) Less true)
                                  (details_request "xyz"))
  = Some [ {| Name := "alpha"; Count := 2; Cost := 5; Duration := 2 |};
           {| Name := "beta"; Count := 2; Cost := 5; Duration := 2 |};
           {| Name := "gamma"; Count := 1; Cost := 5; Duration := 1 |} ].
Proof. vm_compute. reflexivity. Qed.

Example Details_overflow :
  Real <$> rendered (Details scenario_host
                       (run_Lang (decode_to (Some overflow_calls)) Less false)
                       (details_request "xyz"))
  = Some (- 2 ^ 63).
Proof. vm_compute. reflexivity. Qed.

Example Details_nil_Stats :
  Details scenario_host (run_Lang (decode_to None) Less false) (details_request "xyz")
  = panic_nil_dereference.
Proof. vm_compute. reflexivity. Qed.

Example File_scenario :
  File scenario_host (file_request "main.go" "2")
  = ExecuteTemplate "file"
      {| FEnv := {[ "APPLICATION_ID"%string := "app"%string ]};
         Filename := "main.go";
         Lineno := 2;
         Fp := {[ 1 := "package main"%string; 2 := "func main() {}"%string; 3 := ""%string ]} |}.
Proof. vm_compute. reflexivity. Qed.

Example File_empty_file :
  Fp <$> rendered (File empty_file_host (file_request "empty.txt" "1"))
  = Some {[ 1 := ""%string ]}.
Proof. vm_compute. reflexivity. Qed.

Example File_line_beyond_the_end :
  Lineno <$> rendered (File scenario_host (file_request "main.go" "4000"))
  = Some 4000.
Proof. vm_compute. reflexivity. Qed.

(** * Further properties of the handlers *)

(** ** The groups that [Details] forms *)

Section groups.
Context {C : Type} `{Numeric C}.
Implicit Types (a : Acc C) (r : RPCStat C) (rs : list (RPCStat C)) (k : string).

Lemma events_named_snoc k rs r :
  events_named k (rs ++ [r])
  = events_named k rs ++ (if decide (RPCStat_Name r = k) then [r] else []).
Proof.
  unfold events_named. rewrite filter_app. reflexivity.
Qed.

Lemma Cost_sum_snoc (cs : list C) (c : C) : Cost_sum (cs ++ [c]) = num_add (Cost_sum cs) c.
Proof. unfold Cost_sum. now rewrite foldl_snoc. Qed.

Lemma Duration_sum_snoc ds d : Duration_sum (ds ++ [d]) = wrap64 (Duration_sum ds + d).
Proof. unfold Duration_sum. now rewrite foldl_snoc. Qed.

(** What the two maps hold for a name after the first loop: nothing when
    no event has the name; otherwise the number of its events (as an
    [int]), their costs added up in order, and their durations added up in
    order. *)
Lemma aggregate_lookup rs k :
  byCount (aggregate rs) !! k
  = match events_named k rs with
    | [] => None
    | es => Some {| count := int_wrap (Z.of_nat (length es));
                    cost := Cost_sum (RPCStat_Cost <$> es) |}
    end
  ∧ durationCount (aggregate rs) !! k
    = match events_named k rs with
      | [] => None
      | es => Some (Duration_sum (RPCStat_Duration <$> es))
      end.
Proof.
  induction rs as [|r rs [IHb IHd]] using rev_ind; [done|].
  rewrite aggregate_snoc, events_named_snoc.
  unfold aggregate_step. cbn [byCount durationCount].
  destruct (decide (RPCStat_Name r = k)) as [E|Hne]; [subst k|].
  - rewrite !lookup_insert_eq.
    destruct (events_named (RPCStat_Name r) rs) as [|e es1] eqn:Hes;
      rewrite IHb; [rewrite lookup_insert_eq; split; reflexivity|].
    cbv beta iota zeta. rewrite IHd. cbn [default count cost].
    change ((e :: es1) ++ [r]) with (e :: (es1 ++ [r])). cbv iota zeta.
    change (e :: (es1 ++ [r])) with ((e :: es1) ++ [r]).
    rewrite !fmap_app, length_app.
    change (RPCStat_Cost <$> [r]) with [RPCStat_Cost r].
    change (RPCStat_Duration <$> [r]) with [RPCStat_Duration r].
    rewrite Cost_sum_snoc, Duration_sum_snoc.
    split; [|reflexivity]. f_equal. f_equal.
    unfold id. cbn [count]. unfold int_wrap. rewrite wrap_add_l. f_equal.
    simpl length. lia.
  - rewrite app_nil_r, !lookup_insert_ne by done. split; [done|].
    destruct (byCount (aggregate rs) !! RPCStat_Name r); [done|].
    now rewrite lookup_insert_ne.
Qed.
End groups.

Lemma Cost_sum_num_sum {C : Type} `{NumericLaws C} (cs : list C) : Cost_sum cs = num_sum cs.
Proof.
  induction cs as [|c cs IH] using rev_ind; [done|].
  rewrite Cost_sum_snoc, num_sum_app, IH. f_equal.
  rewrite num_sum_cons. symmetry. apply num_add_zero_r.
Qed.

Section view_groups.
Context {C : Type} `{Numeric C}.
Variables (h : Host) (g : Lang C) (r : Request).
Variables (full : stats_full C) (stats : RequestStats C).
Hypothesis decoded : decodes_to h g r full stats.

Lemma byCount_is_Some (rs : list (RPCStat C)) (k : string) :
  is_Some (byCount (aggregate rs) !! k) ↔ k ∈ RPCStat_Name <$> rs.
Proof.
  rewrite (proj1 (aggregate_lookup rs k)), list_elem_of_fmap.
  destruct (events_named k rs) as [|e es] eqn:Hes.
  - split; [now intros [? ?]|]. intros (e & -> & He).
    assert (e ∈ events_named (RPCStat_Name e) rs) as Hin
      by (apply list_elem_of_filter; done).
    rewrite Hes in Hin. now apply not_elem_of_nil in Hin.
  - split; [|eauto]. intros _.
    assert (e ∈ events_named k rs) as Hin by (rewrite Hes; left).
    apply list_elem_of_filter in Hin as [<- He]. eauto.
Qed.

(** X1, every row is its group: a row of the rendered view has the name
    of at least one event of the record, and holds the number of the
    events with that name, their costs added up in the order of the
    events, from the zero value, and their durations added up in
    [time.Duration]. *)
Theorem row_is_its_group :
  LangOK g →
  Z.of_nat (length (RPCStats stats)) ≤ MaxInt →
  ∃ v, Details h g r = ExecuteTemplate "details" v
       ∧ ∀ x, x ∈ AllStatsByCount v →
              let es := events_named (Name x) (RPCStats stats) in
              es ≠ []
              ∧ Count x = Z.of_nat (length es)
              ∧ Cost x = Cost_sum (RPCStat_Cost <$> es)
              ∧ Duration x = Duration_sum (RPCStat_Duration <$> es).
Proof.
  intros g_ok Hlen. eexists. split; [apply (Details_decoded g h r full stats decoded)|].
  cbn [AllStatsByCount]. intros x (k & v & Hk & ->)%(rows_elem_of g g_ok).
  cbn [row_of fst snd Name Count Cost Duration].
  destruct (aggregate_lookup (RPCStats stats) k) as [Hb Hd].
  rewrite Hk in Hb. rewrite Hd.
  pose proof (length_filter (λ e, RPCStat_Name e = k) (RPCStats stats)) as Hle.
  fold (events_named k (RPCStats stats)) in Hle.
  destruct (events_named k (RPCStats stats)) as [|e es]; [done|].
  injection Hb as ->. cbn [count cost default].
  split; [done|]. split; [|done].
  apply int_wrap_small. pose proof MinInt_neg. lia.
Qed.

(** X2, one row per name: the names of the rows of the rendered view are
    the names of the events of the record, each once; there are as many
    rows as distinct names, so none when the record has no event. *)
Theorem one_row_per_name :
  LangOK g →
  ∃ v, Details h g r = ExecuteTemplate "details" v
       ∧ NoDup (Name <$> AllStatsByCount v)
       ∧ (∀ k, k ∈ Name <$> AllStatsByCount v ↔ k ∈ RPCStat_Name <$> RPCStats stats)
       ∧ length (AllStatsByCount v) = size (names_of (RPCStats stats)).
Proof.
  intros g_ok. eexists. split; [apply (Details_decoded g h r full stats decoded)|].
  cbn [AllStatsByCount]. set (a := aggregate (RPCStats stats)).
  split; [apply (rows_NoDup_Name g g_ok)|].
  assert (∀ k, k ∈ Name <$> rows g a ↔ k ∈ RPCStat_Name <$> RPCStats stats) as Hnames.
  { intros k. rewrite <- byCount_is_Some, list_elem_of_fmap. fold a. split.
    - intros (x & -> & (k' & v & Hk & ->)%(rows_elem_of g g_ok)). simpl. eauto.
    - intros [v Hk]. exists (row_of (durationCount a) (k, v)). split; [done|].
      apply (rows_elem_of g g_ok). eauto. }
  split; [done|].
  rewrite <- (length_fmap Name).
  rewrite <- (size_list_to_set (C:=gset string)) by apply (rows_NoDup_Name g g_ok).
  f_equal. apply set_eq. intros k. unfold names_of.
  now rewrite !elem_of_list_to_set.
Qed.
End view_groups.

Lemma row_is_its_group_witness :
  ∃ v, Details scenario_host scenario_lang (details_request "xyz") = ExecuteTemplate "details" v
       ∧ ∀ x, x ∈ AllStatsByCount v →
              let es := events_named (Name x) scenario_calls in
              es ≠ []
              ∧ Count x = Z.of_nat (length es)
              ∧ Cost x = Cost_sum (RPCStat_Cost <$> es)
              ∧ Duration x = Duration_sum (RPCStat_Duration <$> es).
Proof.
  assert (Z.of_nat (length (RPCStats scenario_stats)) ≤ MaxInt) as Hlen
    by (vm_compute; discriminate).
  exact (row_is_its_group scenario_host scenario_lang (details_request "xyz")
           scenario_full scenario_stats scenario_decodes (run_Lang_OK _ _ _) Hlen).
Defined.

Lemma one_row_per_name_witness :
  ∃ v, Details scenario_host scenario_lang (details_request "xyz") = ExecuteTemplate "details" v
       ∧ NoDup (Name <$> AllStatsByCount v)
       ∧ (∀ k, k ∈ Name <$> AllStatsByCount v ↔ k ∈ RPCStat_Name <$> scenario_calls)
       ∧ length (AllStatsByCount v) = size (names_of scenario_calls).
Proof.
  exact (one_row_per_name scenario_host scenario_lang (details_request "xyz")
           scenario_full scenario_stats scenario_decodes (run_Lang_OK _ _ _)).
Defined.

(** ** The order of the events, the order of the rows *)

(** Events in another order give the same maps and the same total. *)
Lemma aggregate_Permutation {C : Type} `{NumericLaws C} (rs rs' : list (RPCStat C)) :
  rs ≡ₚ rs' →
  byCount (aggregate rs) = byCount (aggregate rs')
  ∧ durationCount (aggregate rs) = durationCount (aggregate rs')
  ∧ _real (aggregate rs) = _real (aggregate rs').
Proof.
  intros Hperm.
  assert (∀ k, events_named k rs ≡ₚ events_named k rs') as Hev.
  { intros k. unfold events_named. now rewrite Hperm. }
  assert (∀ l l' : list (RPCStat C), l ≡ₚ l' → l = [] → l' = []) as Hnil.
  { intros l l' Hl ->. now apply Permutation_nil. }
  split; [|split].
  - apply map_eq. intros k.
    rewrite (proj1 (aggregate_lookup rs k)), (proj1 (aggregate_lookup rs' k)).
    specialize (Hev k).
    destruct (events_named k rs) as [|e es] eqn:E, (events_named k rs') as [|e' es'] eqn:E';
      [done|now apply Permutation_nil_cons in Hev
       |symmetry in Hev; now apply Permutation_nil_cons in Hev|].
    f_equal. f_equal.
    + now rewrite Hev.
    + rewrite !Cost_sum_num_sum. apply num_sum_Permutation. now rewrite Hev.
  - apply map_eq. intros k.
    rewrite (proj2 (aggregate_lookup rs k)), (proj2 (aggregate_lookup rs' k)).
    specialize (Hev k).
    destruct (events_named k rs) as [|e es] eqn:E, (events_named k rs') as [|e' es'] eqn:E';
      [done|now apply Permutation_nil_cons in Hev
       |symmetry in Hev; now apply Permutation_nil_cons in Hev|].
    f_equal. rewrite !Duration_sum_wrap. f_equal.
    change sumZ with (@num_sum Z _). apply num_sum_Permutation. now rewrite Hev.
  - rewrite !aggregate_real. f_equal.
    change sumZ with (@num_sum Z _). apply num_sum_Permutation. now rewrite Hperm.
Qed.

(** X3, the order of the events does not matter: two traces whose records
    hold the same events in different orders are rendered with the same
    rows up to the order of the rows, and with the same total duration --
    whatever [Less] is and however [range] and [sort.Sort] proceed in
    either run (for a cost type whose addition is associative and
    commutative with the zero value as unit). *)
Theorem event_order_is_irrelevant {C : Type} `{NumericLaws C}
    (h : Host) (g g' : Lang C) (r r' : Request)
    (full full' : stats_full C) (stats stats' : RequestStats C) :
  LangOK g → LangOK g' →
  decodes_to h g r full stats →
  decodes_to h g' r' full' stats' →
  RPCStats stats ≡ₚ RPCStats stats' →
  ∃ v v', Details h g r = ExecuteTemplate "details" v
          ∧ Details h g' r' = ExecuteTemplate "details" v'
          ∧ AllStatsByCount v ≡ₚ AllStatsByCount v'
          ∧ Real v = Real v'.
Proof.
  intros g_ok g_ok' Hdec Hdec' Hperm. do 2 eexists.
  split; [apply (Details_decoded g h r full stats Hdec)|].
  split; [apply (Details_decoded g' h r' full' stats' Hdec')|].
  destruct (aggregate_Permutation _ _ Hperm) as (Hb & Hd & Hr).
  cbn [AllStatsByCount Real]. split; [|exact Hr].
  rewrite (rows_Permutation g g_ok), (rows_Permutation g' g_ok').
  now rewrite Hb, Hd.
Qed.

(** X4, [Less] and the traversal decide the order only: whatever [Less]
    is and however [range] and [sort.Sort] proceed, the rendered view has
    the same rows up to their order, and the same record, header,
    environment and total duration. *)
Theorem rows_up_to_order {C : Type} `{Numeric C}
    (h : Host) (g g' : Lang C) (r : Request)
    (full : stats_full C) (stats : RequestStats C) :
  LangOK g → LangOK g' →
  (∀ bytes, gob_Decode g' bytes = gob_Decode g bytes) →
  decodes_to h g r full stats →
  ∃ v v', Details h g r = ExecuteTemplate "details" v
          ∧ Details h g' r = ExecuteTemplate "details" v'
          ∧ AllStatsByCount v ≡ₚ AllStatsByCount v'
          ∧ Real v = Real v' ∧ Record_ v = Record_ v'
          ∧ Header_ v = Header_ v' ∧ Env v = Env v'.
Proof.
  intros g_ok g_ok' Hsame Hdec.
  assert (decodes_to h g' r full stats) as Hdec'.
  { destruct Hdec as (item & Hget & Hd & Hs). exists item. now rewrite Hsame. }
  do 2 eexists.
  split; [apply (Details_decoded g h r full stats Hdec)|].
  split; [apply (Details_decoded g' h r full stats Hdec')|].
  cbn [AllStatsByCount]. split; [|done].
  now rewrite (rows_Permutation g g_ok), (rows_Permutation g' g_ok').
Qed.

(** ** How [Details] ends *)

(** X5, [Details] replies with no error of its own: it never calls
    [http.Error]; the only template it executes is ["details"]; and it
    panics exactly when the cached bytes decode to a value without a
    record (a nil [Stats]), which it dereferences. *)
Theorem Details_outcomes {C : Type} `{Numeric C} (h : Host) (g : Lang C) (r : Request) :
  (∀ msg code, Details h g r ≠ http_Error msg code)
  ∧ (∀ name v, Details h g r = ExecuteTemplate name v → name = "details"%string)
  ∧ (Details h g r = panic_nil_dereference
     ↔ ∃ item full, memcache_Get h (keyFull h (FormValue r "rid")) = inl item
                    ∧ gob_Decode g (Value item) = inl full
                    ∧ Stats full = None).
Proof.
  unfold Details.
  destruct (memcache_Get h _) as [item|e].
  2:{ split; [done|]. split; [now intros ? ? [= <- _]|].
      split; [done|]. now intros (? & ? & ? & _). }
  destruct (gob_Decode g (Value item)) as [full|e] eqn:Hd.
  2:{ split; [done|]. split; [now intros ? ? [= <- _]|].
      split; [done|]. intros (? & ? & [= <-] & Hd' & _). congruence. }
  destruct (Stats full) as [stats|] eqn:Hs.
  - split; [done|]. split; [now intros ? ? [= <- _]|].
    split; [done|]. intros (? & ? & [= <-] & Hd' & Hs'). congruence.
  - split; [done|]. split; [done|]. split; [|done]. intros _. eauto.
Qed.

(** X6, a record without events: when the trace decodes to a record that
    holds no call event, the view holds the record and the decoded
    header, no row and a zero duration. *)
Theorem Details_no_events {C : Type} `{Numeric C} (h : Host) (g : Lang C) (r : Request)
    (full : stats_full C) (stats : RequestStats C) :
  LangOK g →
  decodes_to h g r full stats →
  RPCStats stats = [] →
  Details h g r = ExecuteTemplate "details"
    {| Env := {[ "APPLICATION_ID"%string := appengine_AppID h ]};
       Record_ := Some stats;
       Header_ := Header full;
       AllStatsByCount := [];
       Real := 0 |}.
Proof.
  intros g_ok Hdec Hnil. rewrite (Details_decoded g h r full stats Hdec), Hnil.
  do 2 f_equal. apply Permutation_nil.
  now rewrite (rows_Permutation g g_ok).
Qed.

Lemma event_order_is_irrelevant_witness :
  ∃ v v', Details order_host (run_Lang order_decode Less false) (details_request "fwd")
          = ExecuteTemplate "details" v
          ∧ Details order_host (run_Lang order_decode Less_by_Count true)
              (details_request "bwd")
            = ExecuteTemplate "details" v'
          ∧ AllStatsByCount v ≡ₚ AllStatsByCount v'
          ∧ Real v = Real v'.
Proof.
  apply (event_order_is_irrelevant order_host (run_Lang order_decode Less false)
           (run_Lang order_decode Less_by_Count true)
           (details_request "fwd") (details_request "bwd")
           {| Header := ∅; Stats := Some {| RPCStats := scenario_calls |} |}
           {| Header := ∅; Stats := Some {| RPCStats := reverse scenario_calls |} |}
           {| RPCStats := scenario_calls |} {| RPCStats := reverse scenario_calls |}).
  - apply run_Lang_OK.
  - apply run_Lang_OK.
  - now exists {| Value := [ Byte.x01 ] |}.
  - now exists {| Value := [ Byte.x02 ] |}.
  - simpl. symmetry. apply reverse_Permutation.
Defined.

Lemma rows_up_to_order_witness :
  ∃ v v', Details scenario_host scenario_lang (details_request "xyz")
          = ExecuteTemplate "details" v
          ∧ Details scenario_host (run_Lang scenario_decode Less_by_Count true)
              (details_request "xyz")
            = ExecuteTemplate "details" v'
          ∧ AllStatsByCount v ≡ₚ AllStatsByCount v'
          ∧ Real v = Real v' ∧ Record_ v = Record_ v'
          ∧ Header_ v = Header_ v' ∧ Env v = Env v'.
Proof.
  apply (rows_up_to_order scenario_host scenario_lang
           (run_Lang scenario_decode Less_by_Count true) (details_request "xyz")
           scenario_full scenario_stats).
  - apply run_Lang_OK.
  - apply run_Lang_OK.
  - reflexivity.
  - exact scenario_decodes.
Defined.

Lemma Details_no_events_witness :
  Details scenario_host (run_Lang (decode_to (Some [])) Less false) (details_request "xyz")
  = ExecuteTemplate "details"
      {| Env := {[ "APPLICATION_ID"%string := "app"%string ]};
         Record_ := Some {| RPCStats := [] |};
         Header_ := ∅;
         AllStatsByCount := [];
         Real := 0 |}.
Proof.
  apply (Details_no_events scenario_host (run_Lang (decode_to (Some [])) Less false)
           (details_request "xyz") {| Header := ∅; Stats := Some {| RPCStats := [] |} |}
           {| RPCStats := [] |}).
  - apply run_Lang_OK.
  - now exists {| Value := [ Byte.x01 ] |}.
  - reflexivity.
Defined.

(** ** The lines of [File], joined again *)

Lemma append_cons (c : ascii) (s t : string) :
  String.append (String c s) t = String c (String.append s t).
Proof. reflexivity. Qed.

Lemma append_nil_l (t : string) : String.append EmptyString t = t.
Proof. reflexivity. Qed.

Lemma strings_Join_Split (s : string) :
  strings_Join (strings_Split s newline) newline = s.
Proof.
  induction s as [|c s IH]; [done|]. simpl.
  pose proof (strings_Split_nonempty s newline) as Hne.
  destruct (strings_Split s newline) as [|l ls]; [done|].
  destruct (Ascii.eqb_spec c newline) as [->|_].
  - change (strings_Join (EmptyString :: l :: ls) newline)
      with (String.append EmptyString (String newline (strings_Join (l :: ls) newline))).
    now rewrite IH.
  - destruct ls as [|l' ls].
    + simpl in *. now rewrite IH.
    + change (strings_Join (String c l :: l' :: ls) newline)
        with (String.append (String c l) (String newline (strings_Join (l' :: ls) newline))).
      rewrite append_cons. f_equal. exact IH.
Qed.

Lemma strings_Split_no_separator (s : string) :
  Forall (λ line, contains_byte line newline = false) (strings_Split s newline).
Proof.
  induction s as [|c s IH]; simpl; [now constructor|].
  destruct (Ascii.eqb_spec c newline) as [->|Hc]; [now constructor|].
  pose proof (strings_Split_nonempty s newline) as Hne.
  destruct (strings_Split s newline) as [|l ls]; [done|].
  inversion IH as [|? ? Hl Hls]; subst. constructor; [|done].
  simpl. rewrite Hl. now rewrite (proj2 (Ascii.eqb_neq _ _) Hc).
Qed.

(** X7, the content can be read back from the line map: for a readable
    file (whose number of lines fits an [int]) the lines of the rendered
    map, taken in the order of their keys and joined by newlines, are the
    content of the file, byte for byte; no line holds a newline. *)
Theorem File_lines_join (h : Host) (r : Request) (f : string) :
  ioutil_ReadFile h (Values_Get (URL_Query r) "f") = inl f →
  Z.of_nat (length (strings_Split f newline)) ≤ MaxInt →
  ∃ v, File h r = ExecuteTemplate "file" v
       ∧ strings_Join (Fp_lines (Fp v) (size (Fp v))) newline = f
       ∧ (∀ i line, Fp v !! i = Some line → contains_byte line newline = false).
Proof.
  intros Hf Hlen. eexists. split; [exact (File_served h r f Hf)|]. cbn [Fp].
  destruct (range_lines_spec _ Hlen) as (Hsize & Hkeys & Hlines).
  set (lines := strings_Split f newline) in *.
  set (fp := range_lines 0 lines ∅) in *.
  assert (Fp_lines fp (size fp) = lines) as ->.
  { rewrite Hsize. apply list_eq. intros j. unfold Fp_lines.
    rewrite list_lookup_fmap.
    destruct (decide (j < length lines)%nat) as [Hj|Hj].
    - rewrite lookup_seq_lt by done. simpl. rewrite Hlines by done.
      destruct (lookup_lt_is_Some_2 lines j Hj) as [l ->]. done.
    - rewrite lookup_seq_ge, lookup_ge_None_2 by lia. done. }
  split; [apply strings_Join_Split|].
  intros i line Hi.
  assert (1 ≤ i ≤ Z.of_nat (length lines)) as Hrange by (apply Hkeys; eauto).
  replace i with (Z.of_nat (Z.to_nat (i - 1)) + 1) in Hi by lia.
  rewrite Hlines in Hi by lia.
  pose proof (strings_Split_no_separator f) as Hall. rewrite Forall_forall in Hall.
  apply Hall. eapply list_elem_of_lookup_2. exact Hi.
Qed.

Lemma File_lines_join_witness :
  ∃ v, File scenario_host (file_request "main.go" "2") = ExecuteTemplate "file" v
       ∧ strings_Join (Fp_lines (Fp v) (size (Fp v))) newline = scenario_source
       ∧ (∀ i line, Fp v !! i = Some line → contains_byte line newline = false).
Proof.
  assert (Z.of_nat (length (strings_Split scenario_source newline)) ≤ MaxInt) as Hlen
    by (vm_compute; discriminate).
  exact (File_lines_join scenario_host (file_request "main.go" "2") scenario_source
           eq_refl Hlen).
Defined.

(** ** Strings: slices, prefixes, suffixes, last index *)

Lemma length_append (s t : string) :
  String.length (String.append s t) = (String.length s + String.length t)%nat.
Proof. induction s as [|c s IH]; [done|]. rewrite append_cons. simpl. now rewrite IH. Qed.

Lemma append_assoc (s t u : string) :
  String.append (String.append s t) u = String.append s (String.append t u).
Proof. induction s as [|c s IH]; [done|]. rewrite !append_cons. now rewrite IH. Qed.

Lemma string_from_append (s t : string) (k : nat) :
  string_from (String.append s t) (String.length s + k) = string_from t k.
Proof. induction s as [|c s IH]; [done|]. rewrite append_cons. exact IH. Qed.

Lemma string_to_append (s t : string) :
  string_to (String.append s t) (String.length s) = s.
Proof.
  induction s as [|c s IH]; [now destruct t|]. rewrite append_cons. simpl. now rewrite IH.
Qed.

Lemma contains_byte_append (s t : string) (c : ascii) :
  contains_byte (String.append s t) c = contains_byte s c || contains_byte t c.
Proof.
  induction s as [|d s IH]; [done|]. rewrite append_cons. simpl.
  now rewrite IH, orb_assoc.
Qed.

Lemma strings_HasPrefix_append (p s : string) :
  strings_HasPrefix (String.append p s) p = true.
Proof.
  unfold strings_HasPrefix. rewrite length_append, string_to_append, String.eqb_refl.
  rewrite andb_true_r. apply Nat.leb_le. lia.
Qed.

(** Whether a string ends in [suffix] is decided by any of its tails that
    is as long as [suffix]. *)
Lemma strings_HasSuffix_append (p s suffix : string) :
  (String.length suffix ≤ String.length s)%nat →
  strings_HasSuffix (String.append p s) suffix = strings_HasSuffix s suffix.
Proof.
  intros Hlen. unfold strings_HasSuffix. rewrite length_append.
  replace (String.length p + String.length s - String.length suffix)%nat
    with (String.length p + (String.length s - String.length suffix))%nat by lia.
  rewrite string_from_append.
  rewrite (proj2 (Nat.leb_le _ _) Hlen).
  now rewrite (proj2 (Nat.leb_le (String.length suffix) (String.length p + String.length s)))
    by lia.
Qed.

Lemma LastIndex_from_absent (s : string) (sep : ascii) : ∀ i last,
  contains_byte s sep = false → LastIndex_from s sep i last = last.
Proof.
  induction s as [|c s IH]; intros i last Hs; [done|]. simpl in *.
  apply orb_false_iff in Hs as [-> Hs]. now apply IH.
Qed.

Lemma LastIndex_from_last (s1 s2 : string) (sep : ascii) : ∀ i last,
  contains_byte s2 sep = false →
  LastIndex_from (String.append s1 (String sep s2)) sep i last
  = i + Z.of_nat (String.length s1).
Proof.
  induction s1 as [|c s1 IH]; intros i last Hs2.
  - rewrite append_nil_l. simpl. rewrite Ascii.eqb_refl.
    rewrite LastIndex_from_absent by done. lia.
  - rewrite append_cons. cbn [LastIndex_from]. rewrite IH by done.
    cbn [String.length]. lia.
Qed.

(** A string has no [sep], or splits at its last [sep]. *)
Lemma last_separator (s : string) (sep : ascii) :
  contains_byte s sep = false
  ∨ ∃ s1 s2, s = String.append s1 (String sep s2) ∧ contains_byte s2 sep = false.
Proof.
  induction s as [|c s [IH|(s1 & s2 & -> & Hs2)]].
  - now left.
  - destruct (Ascii.eqb_spec c sep) as [->|Hc].
    + right. exists EmptyString, s. done.
    + left. simpl. now rewrite IH, (proj2 (Ascii.eqb_neq _ _) Hc).
  - right. exists (String c s1), s2. done.
Qed.

(** ** [Static] *)

Lemma Static_fname_join (dir name : string) :
  contains_byte name "/" = false →
  Static_fname (String.append dir (String "/" name)) = name.
Proof.
  intros Hname. unfold Static_fname, strings_LastIndex.
  rewrite LastIndex_from_last by done.
  replace (Z.to_nat (0 + Z.of_nat (String.length dir) + 1))
    with (String.length dir + 1)%nat by lia.
  rewrite string_from_append. reflexivity.
Qed.

Lemma Static_fname_plain (path : string) :
  contains_byte path "/" = false → Static_fname path = path.
Proof.
  intros Hpath. unfold Static_fname, strings_LastIndex.
  rewrite LastIndex_from_absent by done. now destruct path.
Qed.

(** X8, the name that [Static] looks up is the last segment of the path:
    for a path [dir/name] where [name] has no slash it is [name], whatever
    [dir] is; for a path without a slash it is the path; it never holds a
    slash; and the index it is sliced at is within the path, so that the
    slice cannot panic. *)
Theorem Static_fname_is_last_segment :
  (∀ dir name, contains_byte name "/" = false →
               Static_fname (String.append dir (String "/" name)) = name)
  ∧ (∀ path, contains_byte path "/" = false → Static_fname path = path)
  ∧ (∀ path, contains_byte (Static_fname path) "/" = false)
  ∧ (∀ path, 0 ≤ strings_LastIndex path "/" + 1 ≤ Z.of_nat (String.length path)).
Proof.
  split; [exact Static_fname_join|]. split; [exact Static_fname_plain|]. split.
  - intros path. destruct (last_separator path "/") as [Hno|(s1 & s2 & -> & Hs2)].
    + now rewrite Static_fname_plain.
    + now rewrite Static_fname_join.
  - intros path. unfold strings_LastIndex.
    destruct (last_separator path "/") as [Hno|(s1 & s2 & -> & Hs2)].
    + rewrite LastIndex_from_absent by done. lia.
    + rewrite LastIndex_from_last by done. rewrite length_append. simpl. lia.
Qed.

Lemma canonical_keys :
  CanonicalMIMEHeaderKey "Content-type" = "Content-Type"%string
  ∧ CanonicalMIMEHeaderKey "Cache-Control" = "Cache-Control"%string
  ∧ CanonicalMIMEHeaderKey "Expires" = "Expires"%string.
Proof. repeat split. Qed.

Lemma Static_Written (s : Site) (r : Request) :
  Written (Static s r) = staticFiles s !! Static_fname (URL_Path r).
Proof. unfold Static. now destruct (staticFiles s !! _). Qed.

Lemma Static_Content_Type (s : Site) (r : Request) :
  is_Some (Written (Static s r)) →
  SHeader (Static s r) !! "Content-Type"%string
  = (if strings_HasSuffix (URL_Path r) ".css" then Some [ "text/css"%string ]
     else if strings_HasSuffix (URL_Path r) ".js" then Some [ "text/javascript"%string ]
     else None).
Proof.
  unfold Static. cbv zeta.
  destruct (staticFiles s !! _) as [v|]; cbn [Written SHeader]; [|now intros [? ?]].
  intros _. unfold Header_Set.
  destruct canonical_keys as (-> & -> & ->).
  destruct (strings_HasSuffix (URL_Path r) ".css");
    [|destruct (strings_HasSuffix (URL_Path r) ".js")]; done.
Qed.

(** X9, what [Static] leaves in the response: the bytes registered under
    the last segment of the path, and nothing -- no byte, no header, no
    error status -- when nothing is registered under it.  With the bytes
    go [Cache-Control] (with the literal text [max-age=expiry]),
    [Expires] (one hour after now, in the RFC 1123 layout) and, for a path
    in [.css] or [.js] only, [Content-Type]; no other header is set. *)
Theorem Static_reply (s : Site) (r : Request) :
  let reply := Static s r in
  Written reply = staticFiles s !! Static_fname (URL_Path r)
  ∧ (Written reply = None → SHeader reply = ∅)
  ∧ (is_Some (Written reply) →
     SHeader reply !! "Cache-Control"%string = Some [ "public, max-age=expiry"%string ]
     ∧ SHeader reply !! "Expires"%string
       = Some [ Time_Format s (time_Now s + time_Hour) time_RFC1123 ]
     ∧ SHeader reply !! "Content-Type"%string
       = (if strings_HasSuffix (URL_Path r) ".css" then Some [ "text/css"%string ]
          else if strings_HasSuffix (URL_Path r) ".js" then Some [ "text/javascript"%string ]
          else None)
     ∧ ∀ k, k ≠ "Cache-Control"%string → k ≠ "Expires"%string →
            k ≠ "Content-Type"%string → SHeader reply !! k = None).
Proof.
  destruct canonical_keys as (Kt & Kc & Ke).
  unfold Static. cbv zeta.
  destruct (staticFiles s !! Static_fname (URL_Path r)) as [v|]; cbn [Written SHeader].
  2:{ split; [done|]. split; [done|]. now intros [? ?]. }
  split; [done|]. split; [done|]. intros _. unfold Header_Set. rewrite Kt, Kc, Ke.
  destruct (strings_HasSuffix (URL_Path r) ".css");
    [|destruct (strings_HasSuffix (URL_Path r) ".js")];
    (split; [done|]; split; [done|]; split; [done|];
     intros k H1 H2 H3; now rewrite !lookup_insert_ne, lookup_empty by done).
Qed.

Lemma init_staticFiles_lookup (a : Assets) (name : string) :
  init_staticFiles a !! name = asset_of a name.
Proof.
  unfold init_staticFiles, asset_of.
  repeat (rewrite lookup_insert; destruct (decide (_ = name)) as [<-|?];
          [reflexivity|rewrite decide_False by done]).
  apply lookup_empty.
Qed.

(** X10, the assets of [init]: the registry holds the seven names of
    [init] and no other; for a path [dir/name] with one of these names,
    whatever [dir] is, [Static] writes the bytes of the asset and sets
    the [Content-Type] header to [text/css] for the style sheet and to
    [text/javascript] for the two scripts; for the four images it sets
    no [Content-Type] itself (what [http.ResponseWriter.Write] then adds
    on its own is outside of [Static]). *)
Theorem Static_assets (s : Site) (a : Assets) (r : Request) (dir name : string) :
  staticFiles s = init_staticFiles a →
  URL_Path r = String.append dir (String "/" name) →
  (is_Some (staticFiles s !! name) ↔ name ∈ registered_names)
  ∧ (name ∈ registered_names →
     Written (Static s r) = asset_of a name
     ∧ is_Some (asset_of a name)
     ∧ SHeader (Static s r) !! "Content-Type"%string = content_type_of name).
Proof.
  intros Hreg Hpath. rewrite Hreg, init_staticFiles_lookup.
  assert (is_Some (asset_of a name) ↔ name ∈ registered_names) as Hiff.
  { unfold asset_of, registered_names. rewrite !elem_of_cons, elem_of_nil.
    repeat (destruct (decide (name = _)) as [->|?]; [split; [tauto|eauto]|]).
    split; [now intros [? ?]|]. tauto. }
  split; [exact Hiff|]. intros Hname.
  pose proof (Static_Written s r) as Hw.
  pose proof (Static_Content_Type s r) as Ht.
  assert (contains_byte name "/" = false) as Hslash.
  { unfold registered_names in Hname. rewrite !elem_of_cons, elem_of_nil in Hname.
    repeat (destruct Hname as [->|Hname]; [reflexivity|]). done. }
  rewrite Hpath, Static_fname_join, Hreg, init_staticFiles_lookup in Hw by done.
  split; [exact Hw|]. split; [now apply Hiff|].
  rewrite Ht, Hpath by (rewrite Hw; now apply Hiff).
  unfold registered_names in Hname. rewrite !elem_of_cons, elem_of_nil in Hname.
  repeat (destruct Hname as [->|Hname];
          [rewrite !strings_HasSuffix_append by (simpl; lia); reflexivity|]).
  done.
Qed.

Lemma Static_assets_witness :
  (is_Some (staticFiles scenario_site !! "gantt.js"%string)
   ↔ "gantt.js"%string ∈ registered_names)
  ∧ ("gantt.js"%string ∈ registered_names →
     Written (Static scenario_site (site_request "/_ah/stats/static/gantt.js" "admin"))
     = asset_of scenario_assets "gantt.js"
     ∧ is_Some (asset_of scenario_assets "gantt.js")
     ∧ SHeader (Static scenario_site (site_request "/_ah/stats/static/gantt.js" "admin"))
         !! "Content-Type"%string
       = content_type_of "gantt.js").
Proof.
  exact (Static_assets scenario_site scenario_assets
           (site_request "/_ah/stats/static/gantt.js" "admin")
           "/_ah/stats/static" "gantt.js" eq_refl eq_refl).
Defined.

(** ** [AppstatsHandler] *)

Section gate.
Context {C : Type} `{Numeric C}.
Variables (s : Site) (h : Host) (g : Lang C).

Lemma route_passed_gate (r : Request) : passed_gate (route s h g r).
Proof. unfold route. repeat case_decide; try done. now destruct (strings_HasPrefix _ _). Qed.

(** X11, the gate: [AppstatsHandler] runs [Details], [File] or [Static],
    or answers that there is no such page, exactly when this is the
    development server or the signed-in user is an administrator; anybody
    else gets none of the three handlers, and not even a 404. *)
Theorem gate_keeps_strangers_out (r : Request) :
  passed_gate (AppstatsHandler s h g r) ↔ authorized s r.
Proof.
  unfold AppstatsHandler, authorized.
  destruct (appengine_IsDevAppServer s).
  { split; [now left|]. intros _. apply route_passed_gate. }
  destruct (user_Current s r) as [[admin]|].
  - destruct admin; simpl.
    + split; [right; eauto|]. intros _. apply route_passed_gate.
    + split; [done|]. intros [?|(u & [= <-] & ?)]; done.
  - destruct (user_LoginURL s r (URL_String s r)); simpl.
    + split; [done|]. intros [?|(u & ? & ?)]; done.
    + split; [done|]. intros [?|(u & ? & ?)]; done.
Qed.

(** X12, what a stranger gets: away from the development server, a
    request without a signed-in user is redirected (307) to the login URL
    made for the request's own URL, or answered with status 500 and the
    error's message when no login URL can be made; a request of a user who
    is not an administrator is answered with status 403, [Forbidden]. *)
Theorem strangers_are_turned_away (r : Request) :
  ¬ authorized s r →
  match user_Current s r with
  | None =>
    match user_LoginURL s r (URL_String s r) with
    | inl loginURL => AppstatsHandler s h g r = http_Redirect loginURL 307
    | inr err => AppstatsHandler s h g r = Replied (http_Error (Error err) 500)
    end
  | Some u =>
    Admin u = false ∧ AppstatsHandler s h g r = Replied (http_Error "Forbidden" 403)
  end.
Proof.
  unfold authorized, AppstatsHandler. intros Hno.
  destruct (appengine_IsDevAppServer s); [destruct Hno; now left|].
  destruct (user_Current s r) as [[admin]|].
  - destruct admin; [destruct Hno; right; eauto|]. done.
  - now destruct (user_LoginURL s r (URL_String s r)).
Qed.

(** X13, a static asset, end to end: for an authorized caller and a path
    made of the static prefix (which ends in a slash) and a name without
    a slash, a path that is neither the details nor the file URL,
    [AppstatsHandler] runs [Static], which writes what the registry holds
    under that name. *)
Theorem static_asset_through_handler (r : Request) (base name : string) :
  authorized s r →
  staticURL s = String.append base (String "/" EmptyString) →
  URL_Path r = String.append (staticURL s) name →
  contains_byte name "/" = false →
  detailsURL s ≠ URL_Path r →
  fileURL s ≠ URL_Path r →
  AppstatsHandler s h g r = ran_Static (Static s r)
  ∧ Written (Static s r) = staticFiles s !! name.
Proof.
  intros Hauth Hbase Hpath Hname Hd Hf.
  assert (AppstatsHandler s h g r = route s h g r) as ->.
  { unfold AppstatsHandler. destruct Hauth as [->|(u & -> & ->)]; [done|].
    now destruct (appengine_IsDevAppServer s). }
  unfold route. rewrite !decide_False by done.
  rewrite Hpath at 1. rewrite strings_HasPrefix_append. split; [done|].
  rewrite Static_Written, Hpath, Hbase, append_assoc.
  rewrite append_cons, append_nil_l. now rewrite Static_fname_join.
Qed.
End gate.

Lemma strangers_are_turned_away_witness :
  AppstatsHandler scenario_site scenario_host scenario_lang
    (site_request "/_ah/stats/details" "")
  = http_Redirect "/_ah/login?continue=/_ah/stats/details" 307
  ∧ AppstatsHandler scenario_site scenario_host scenario_lang
      (site_request "/_ah/stats/details" "guest")
    = Replied (http_Error "Forbidden" 403).
Proof.
  assert (∀ user, user = ""%string ∨ user = "guest"%string →
                  ¬ authorized scenario_site (site_request "/_ah/stats/details" user))
    as Hno.
  { intros user [-> | ->] [Hdev|(u & Hu & Hadmin)]; try discriminate Hdev;
      vm_compute in Hu; [discriminate Hu|].
    injection Hu as <-. discriminate Hadmin. }
  split.
  - exact (strangers_are_turned_away scenario_site scenario_host scenario_lang
             (site_request "/_ah/stats/details" "") (Hno _ (or_introl eq_refl))).
  - exact (proj2 (strangers_are_turned_away scenario_site scenario_host scenario_lang
                    (site_request "/_ah/stats/details" "guest")
                    (Hno _ (or_intror eq_refl)))).
Defined.

Lemma static_asset_through_handler_witness :
  AppstatsHandler scenario_site scenario_host scenario_lang
    (site_request "/_ah/stats/static/pix.gif" "admin")
  = ran_Static (Static scenario_site (site_request "/_ah/stats/static/pix.gif" "admin"))
  ∧ Written (Static scenario_site (site_request "/_ah/stats/static/pix.gif" "admin"))
    = Some [ Byte.x47 ].
Proof.
  assert (authorized scenario_site (site_request "/_ah/stats/static/pix.gif" "admin"))
    as Hauth by (right; exists {| Admin := true |}; split; reflexivity).
  assert (detailsURL scenario_site
          ≠ URL_Path (site_request "/_ah/stats/static/pix.gif" "admin")) as Hd
    by (vm_compute; discriminate).
  assert (fileURL scenario_site
          ≠ URL_Path (site_request "/_ah/stats/static/pix.gif" "admin")) as Hf
    by (vm_compute; discriminate).
  exact (static_asset_through_handler scenario_site scenario_host scenario_lang
           (site_request "/_ah/stats/static/pix.gif" "admin")
           "/_ah/stats/static" "pix.gif" Hauth eq_refl eq_refl eq_refl Hd Hf).
Defined.

(** ** The site, run *)

Example AppstatsHandler_admin_details :
  AppstatsHandler scenario_site scenario_host scenario_lang
    {| URL_Path := "/_ah/stats/details"; URL_Query := ∅;
       Form := {[ "user"%string := [ "admin"%string ]; "rid"%string := [ "xyz"%string ] ]} |}
  = ran_Details (Details scenario_host scenario_lang (details_request "xyz")).
Proof. vm_compute. reflexivity. Qed.

Example AppstatsHandler_admin_unknown_path :
  AppstatsHandler scenario_site scenario_host scenario_lang (site_request "/_ah/other" "admin")
  = Replied http_NotFound.
Proof. vm_compute. reflexivity. Qed.

Example Static_style_sheet :
  Static scenario_site (site_request "/_ah/stats/static/appstats_css.css" "admin")
  = {| SHeader := {[ "Content-Type"%string := [ "text/css"%string ];
                     "Cache-Control"%string := [ "public, max-age=expiry"%string ];
                     "Expires"%string := [ "1383181200"%string ] ]};
       Written := Some [ Byte.x62; Byte.x6f; Byte.x64; Byte.x79 ] |}.
Proof. vm_compute. reflexivity. Qed.

Example Static_unknown_asset :
  Static scenario_site (site_request "/_ah/stats/static/nothing.png" "admin")
  = {| SHeader := ∅; Written := None |}.
Proof. vm_compute. reflexivity. Qed.

(** ** The rendered rows: the groups of the record, ranked *)

(** C2, deterministic row ordering: with the ranking for [Less], the rows
    that [Details] renders are the aggregate rows of the decoded record --
    one row for every name that occurs among its call events and for no
    other name, holding the number of the events of that name, their
    total cost and their total duration -- and every row ranks strictly
    before every later one: by higher total cost, then by higher count,
    then by smaller name.  The rendered view is the same however [range]
    traverses the grouping map and however [sort.Sort] sorts. *)
Theorem deterministic_row_ordering {C : Type} `{Numeric C} `{NumericOrdLaws C}
    (h : Host) (g : Lang C) (r : Request)
    (full : stats_full C) (stats : RequestStats C) :
  LangOK g →
  (∀ x y, StatsByName_Less g x y = Less x y) →
  decodes_to h g r full stats →
  Z.of_nat (length (RPCStats stats)) ≤ MaxInt →
  ∃ v, Details h g r = ExecuteTemplate "details" v
       ∧ Record_ v = Some stats
       ∧ (∀ k, k ∈ Name <$> AllStatsByCount v ↔ k ∈ RPCStat_Name <$> RPCStats stats)
       ∧ (∀ x, x ∈ AllStatsByCount v →
               let es := events_named (Name x) (RPCStats stats) in
               Count x = Z.of_nat (length es)
               ∧ Cost x = Cost_sum (RPCStat_Cost <$> es)
               ∧ Duration x = Duration_sum (RPCStat_Duration <$> es))
       ∧ (∀ (i j : nat) (x y : StatByName C),
             (i < j)%nat →
             AllStatsByCount v !! i = Some x → AllStatsByCount v !! j = Some y →
             ranks_before x y)
       ∧ (∀ g' : Lang C,
             LangOK g' →
             (∀ x y, StatsByName_Less g' x y = Less x y) →
             (∀ bytes, gob_Decode g' bytes = gob_Decode g bytes) →
             Details h g' r = ExecuteTemplate "details" v).
Proof.
  intros g_ok HLess Hdec Hlen. eexists.
  split; [apply (Details_decoded g h r full stats Hdec)|].
  split; [done|]. cbn [AllStatsByCount].
  set (a := aggregate (RPCStats stats)).
  split; [|split; [|split]].
  - intros k. rewrite <- byCount_is_Some, list_elem_of_fmap. fold a. split.
    + intros (x & -> & (k' & v & Hk & ->)%(rows_elem_of g g_ok)). simpl. eauto.
    + intros [v Hk]. exists (row_of (durationCount a) (k, v)). split; [done|].
      apply (rows_elem_of g g_ok). eauto.
  - intros x (k & v & Hk & ->)%(rows_elem_of g g_ok).
    cbn [row_of fst snd Name Count Cost Duration].
    destruct (aggregate_lookup (RPCStats stats) k) as [Hb Hd]. fold a in Hb, Hd.
    rewrite Hk in Hb. rewrite Hd.
    pose proof (length_filter (λ e, RPCStat_Name e = k) (RPCStats stats)) as Hle.
    fold (events_named k (RPCStats stats)) in Hle.
    destruct (events_named k (RPCStats stats)) as [|e es]; [done|].
    injection Hb as ->. cbn [count cost default].
    split; [|done]. apply int_wrap_small. pose proof MinInt_neg. lia.
  - intros i j x y. apply (rows_ranked g a i j x y g_ok HLess).
  - intros g' g_ok' HLess' Hsame.
    rewrite (Details_decoded g' h r full stats).
    + fold a. now rewrite (rows_deterministic g' g a g_ok' HLess' g_ok HLess).
    + destruct Hdec as (item & Hget & Hd & Hs). exists item. now rewrite Hsame.
Qed.

Lemma deterministic_row_ordering_witness :
  ∃ v, Details scenario_host (run_Lang (decode_to (Some tie_calls)) Less true)
         (details_request "xyz")
       = ExecuteTemplate "details" v
       ∧ AllStatsByCount v
         = [ {| Name := "alpha"; Count := 2; Cost := 5; Duration := 2 |};
             {| Name := "beta"; Count := 2; Cost := 5; Duration := 2 |};
             {| Name := "gamma"; Count := 1; Cost := 5; Duration := 1 |} ]
       ∧ (∀ k, k ∈ Name <$> AllStatsByCount v ↔ k ∈ RPCStat_Name <$> tie_calls)
       ∧ (∀ x, x ∈ AllStatsByCount v →
               let es := events_named (Name x) tie_calls in
               Count x = Z.of_nat (length es)
               ∧ Cost x = Cost_sum (RPCStat_Cost <$> es)
               ∧ Duration x = Duration_sum (RPCStat_Duration <$> es))
       ∧ (∀ (i j : nat) (x y : StatByName Z),
             (i < j)%nat →
             AllStatsByCount v !! i = Some x → AllStatsByCount v !! j = Some y →
             ranks_before x y)
       ∧ (∀ g' : Lang Z,
             LangOK g' →
             (∀ x y, StatsByName_Less g' x y = Less x y) →
             (∀ bytes, gob_Decode g' bytes = decode_to (Some tie_calls) bytes) →
             Details scenario_host g' (details_request "xyz") = ExecuteTemplate "details" v).
Proof.
  assert (decodes_to scenario_host (run_Lang (decode_to (Some tie_calls)) Less true)
            (details_request "xyz")
            {| Header := ∅; Stats := Some {| RPCStats := tie_calls |} |}
            {| RPCStats := tie_calls |}) as Hdec
    by (now exists {| Value := [ Byte.x01 ] |}).
  assert (Z.of_nat (length tie_calls) ≤ MaxInt) as Hlen by (vm_compute; discriminate).
  destruct (deterministic_row_ordering scenario_host
              (run_Lang (decode_to (Some tie_calls)) Less true) (details_request "xyz")
              {| Header := ∅; Stats := Some {| RPCStats := tie_calls |} |}
              {| RPCStats := tie_calls |}
              (run_Lang_OK _ _ _) (λ _ _, eq_refl) Hdec Hlen)
    as (v & Hv & _ & Hnames & Hgroups & Hranked & Hsame).
  exists v. split; [exact Hv|]. split; [|done].
  pose proof Hv as Hrun. vm_compute in Hrun. injection Hrun as <-. reflexivity.
Defined.
